(** * Railway scheduler: a shallow embedding of [src/utils/railwayScheduler.ts]

    The development follows the TypeScript module function by function:
    [computeTraversalTime], [prepareTrainsData], [greedySchedule],
    [optimizedSchedule] with [applyLocalImprovements] and [trySwapTrains],
    [computeScheduleMetrics], [applyDisruption] and
    [rescheduleWithDisruption], over the types of [src/types/railway.ts];
    and, of [src/components/GanttChart.tsx], the chart data that [GanttChart]
    computes from a schedule, the geometry of its blocks and its time grid.

    Modelling conventions.
    - A JavaScript [number] is an exact rational extended with [NaN] and the
      two infinities ([JS.number]).  Rounding, overflow and the sign of zero
      are not modelled: a finite operation returns the exact rational.
    - Track counts and track ids are integers ([Z]); an optional field is an
      [option], [None] standing for [undefined].
    - A call that throws (an invalid array length in [new Array], a property
      read on the [undefined] returned by [Array.prototype.find]) returns
      [None]; every other function is total.
    - Arrays are lists, [Array.prototype.sort] is a stable insertion sort, and
      [Record<number, number>] is a [gmap Z JS.number].
    - The functions are pure, as the source is: it builds new arrays and
      objects ([map], [filter], spread) and writes only to arrays and
      variables of its own.

    The file has the model first, then the notions the properties are stated
    with, then the proofs.  Theorems that settle a claim of the specification
    carry its number (C1 to C10). *)

From Stdlib Require Import QArith Qminmax Qround Lqa ZArith List Bool Lia Permutation Sorted.
From stdpp Require Import gmap strings.

Local Open Scope Q_scope.

(** ** JavaScript numbers *)

Module JS.

Inductive number : Type :=
| NaN
| NegInf
| Fin (q : Q)
| PosInf.

Definition Qlt_bool (a b : Q) : bool := negb (Qle_bool b a).

Definition zero : number := Fin 0.

Definition is_nan (x : number) : bool :=
  match x with NaN => true | _ => false end.

(** [x < y]: false as soon as an operand is [NaN]. *)
Definition lt (x y : number) : bool :=
  match x, y with
  | NaN, _ | _, NaN => false
  | _, NegInf => false
  | NegInf, _ => true
  | PosInf, _ => false
  | Fin _, PosInf => true
  | Fin a, Fin b => Qlt_bool a b
  end.

(** [x <= y] *)
Definition le (x y : number) : bool :=
  match x, y with
  | NaN, _ | _, NaN => false
  | NegInf, _ => true
  | _, NegInf => false
  | _, PosInf => true
  | PosInf, _ => false
  | Fin a, Fin b => Qle_bool a b
  end.

(** [x > y] is [y < x]. *)
Definition gt (x y : number) : bool := lt y x.

(** [x !== y] on numbers: [NaN] differs from everything. *)
Definition strict_neq (x y : number) : bool :=
  match x, y with
  | NaN, _ | _, NaN => true
  | NegInf, NegInf => false
  | PosInf, PosInf => false
  | Fin a, Fin b => negb (Qeq_bool a b)
  | _, _ => true
  end.

Definition neg (x : number) : number :=
  match x with
  | NaN => NaN
  | NegInf => PosInf
  | Fin a => Fin (- a)
  | PosInf => NegInf
  end.

(** [x + y] *)
Definition add (x y : number) : number :=
  match x, y with
  | NaN, _ | _, NaN => NaN
  | PosInf, NegInf | NegInf, PosInf => NaN
  | PosInf, _ | _, PosInf => PosInf
  | NegInf, _ | _, NegInf => NegInf
  | Fin a, Fin b => Fin (a + b)
  end.

(** [x - y] *)
Definition sub (x y : number) : number :=
  match x, y with
  | NaN, _ | _, NaN => NaN
  | PosInf, PosInf | NegInf, NegInf => NaN
  | PosInf, _ | _, NegInf => PosInf
  | NegInf, _ | _, PosInf => NegInf
  | Fin a, Fin b => Fin (a - b)
  end.

(** The sign of a number that is not [NaN], zero counting as positive. *)
Definition nonneg (x : number) : bool :=
  match x with
  | NegInf => false
  | Fin a => Qle_bool 0 a
  | _ => true
  end.

Definition is_zero (x : number) : bool :=
  match x with Fin a => Qeq_bool a 0 | _ => false end.

Definition signed_inf (positive : bool) : number :=
  if positive then PosInf else NegInf.

(** [x * y] *)
Definition mul (x y : number) : number :=
  match x, y with
  | NaN, _ | _, NaN => NaN
  | Fin a, Fin b => Fin (a * b)
  | _, _ =>
      if is_zero x || is_zero y then NaN
      else signed_inf (eqb (nonneg x) (nonneg y))
  end.

(** [x / y] *)
Definition div (x y : number) : number :=
  match x, y with
  | NaN, _ | _, NaN => NaN
  | Fin a, Fin b =>
      if Qeq_bool b 0 then
        if Qeq_bool a 0 then NaN else signed_inf (Qle_bool 0 a)
      else Fin (a / b)
  | Fin _, _ => zero
  | _, Fin _ => signed_inf (eqb (nonneg x) (nonneg y))
  | _, _ => NaN
  end.

(** [Math.max(x, y)] *)
Definition max (x y : number) : number :=
  match x, y with
  | NaN, _ | _, NaN => NaN
  | _, _ => if lt x y then y else x
  end.

(** Truthiness of a number: [0] and [NaN] are falsy. *)
Definition truthy (x : number) : bool :=
  match x with
  | NaN => false
  | Fin a => negb (Qeq_bool a 0)
  | _ => true
  end.

(** Truthiness of a possibly [undefined] number. *)
Definition truthy_opt (x : option number) : bool :=
  match x with
  | None => false
  | Some v => truthy v
  end.

(** [ToNumber] of a possibly [undefined] value: [undefined] becomes [NaN]. *)
Definition to_number (x : option number) : number :=
  match x with
  | None => NaN
  | Some v => v
  end.

(** The same value up to the representation of the rational. *)
Definition same (x y : number) : Prop :=
  match x, y with
  | NaN, NaN | NegInf, NegInf | PosInf, PosInf => True
  | Fin a, Fin b => a == b
  | _, _ => False
  end.

Definition finite (x : number) : Prop :=
  match x with Fin _ => True | _ => False end.

(** A finite number or [Infinity]: what a start time or a next-free time is
    when no input is [NaN] and no duration is [-Infinity]. *)
Definition is_time (x : number) : Prop :=
  match x with Fin _ | PosInf => True | _ => False end.

End JS.

(** ** Data model ([src/types/railway.ts]) *)

Inductive Priority : Type := high | medium | low.

Module Train.
Record t : Type := mk {
  id : string;
  scheduledArrival : JS.number;
  speed : JS.number;
  priority : Priority;
  length : JS.number;
  duration : option JS.number
}.
End Train.

Module RailwayConfig.
Record t : Type := mk {
  sectionLength : JS.number;
  timeHorizon : JS.number;
  tracks : Z;
  maxTrainsPerTrack : JS.number;
  safetyHeadway : JS.number
}.
End RailwayConfig.

Module TrainAssignment.
Record t : Type := mk {
  trainId : string;
  trackId : Z;
  actualArrival : JS.number;
  delay : JS.number
}.
End TrainAssignment.

Module Schedule.
Record t : Type := mk {
  assignments : list TrainAssignment.t;
  totalDelay : JS.number;
  weightedDelay : JS.number;
  finished : nat;
  utilization : gmap Z JS.number
}.
End Schedule.

Inductive DisruptionType : Type := delay | block_track.

Module Disruption.
Record t : Type := mk {
  type : DisruptionType;
  trainId : option string;
  delayMinutes : option JS.number;
  trackId : option Z
}.
End Disruption.

Definition PRIORITY_WEIGHTS (p : Priority) : JS.number :=
  match p with
  | high => JS.Fin 3
  | medium => JS.Fin 2
  | low => JS.Fin 1
  end.

(** ** Arrays *)

Section Arrays.
Context {A : Type}.

(** [new Array(n).fill(v)]: a [RangeError] unless [n] is an array length. *)
Definition new_array_fill (n : Z) (v : A) : option (list A) :=
  if ((0 <=? n) && (n <? 2 ^ 32))%Z then Some (repeat v (Z.to_nat n)) else None.

(** [Array.prototype.sort(cmp)]: a stable sort; [x] goes after [y] when
    [cmp x y > 0], and a [NaN] result counts as [0]. *)
Fixpoint sort_insert (cmp : A -> A -> JS.number) (x : A) (l : list A) : list A :=
  match l with
  | [] => [x]
  | y :: l' =>
      if JS.gt (cmp x y) JS.zero then y :: sort_insert cmp x l' else x :: l
  end.

Definition array_sort (cmp : A -> A -> JS.number) (l : list A) : list A :=
  fold_right (sort_insert cmp) [] l.

(** [Object.assign(target, source)] on arrays: the indices of [source]
    overwrite those of [target]. *)
Definition object_assign (target source : list A) : list A :=
  source ++ drop (List.length source) target.
End Arrays.

(** [a[i]] read as a number: a missing element is [undefined], which the
    arithmetic that reads it turns into [NaN]. *)
Definition array_get (a : list JS.number) (i : nat) : JS.number :=
  JS.to_number (a !! i).

(** [a[i] = v]: past the end the array grows, the holes reading as above. *)
Definition array_set (a : list JS.number) (i : nat) (v : JS.number) : list JS.number :=
  if (i <? List.length a)%nat then <[i := v]> a
  else a ++ repeat JS.NaN (i - List.length a) ++ [v].

(** [trains.find(t => t.id === id)] *)
Definition find_train (trains : list Train.t) (id : string) : option Train.t :=
  List.find (fun t => String.eqb (Train.id t) id) trains.

(** ** Traversal model *)

Definition computeTraversalTime (sectionKm speedKmh : JS.number) : JS.number :=
  JS.mul (JS.div sectionKm speedKmh) (JS.Fin 60).

Definition prepareTrainsData (trains : list Train.t) (config : RailwayConfig.t)
  : list Train.t :=
  map (fun train =>
         Train.mk (Train.id train) (Train.scheduledArrival train)
           (Train.speed train) (Train.priority train) (Train.length train)
           (Some (computeTraversalTime (RailwayConfig.sectionLength config)
                    (Train.speed train))))
      trains.

(** ** Metrics calculator *)

Definition init_utilization (tracks : Z) : gmap Z JS.number :=
  fold_left (fun u i => <[Z.of_nat i := JS.zero]> u) (seq 0 (Z.to_nat tracks)) ∅.

(** One iteration of the loop over the assignments. *)
Definition metrics_step (trains : list Train.t) (config : RailwayConfig.t)
    (acc : Schedule.t) (assignment : TrainAssignment.t) : Schedule.t :=
  match find_train trains (TrainAssignment.trainId assignment) with
  | None => acc
  | Some train =>
      match Train.duration train with
      | None => acc
      | Some d =>
          if negb (JS.truthy d) then acc
          else
            Schedule.mk
              (Schedule.assignments acc)
              (JS.add (Schedule.totalDelay acc) (TrainAssignment.delay assignment))
              (JS.add (Schedule.weightedDelay acc)
                 (JS.mul (TrainAssignment.delay assignment)
                    (PRIORITY_WEIGHTS (Train.priority train))))
              (if JS.le (JS.add (TrainAssignment.actualArrival assignment) d)
                    (RailwayConfig.timeHorizon config)
               then S (Schedule.finished acc) else Schedule.finished acc)
              (<[TrainAssignment.trackId assignment :=
                   JS.add
                     (JS.to_number
                        (Schedule.utilization acc !! TrainAssignment.trackId assignment))
                     d]> (Schedule.utilization acc))
      end
  end.

Definition computeScheduleMetrics (assignments : list TrainAssignment.t)
    (trains : list Train.t) (config : RailwayConfig.t) : Schedule.t :=
  fold_left (metrics_step trains config) assignments
    (Schedule.mk assignments JS.zero JS.zero 0%nat
       (init_utilization (RailwayConfig.tracks config))).

(** ** Greedy assigner *)

(** The comparator of the train sort: priority weight descending, then
    scheduled arrival ascending. *)
Definition train_order (a b : Train.t) : JS.number :=
  let weightDiff :=
    JS.sub (PRIORITY_WEIGHTS (Train.priority b)) (PRIORITY_WEIGHTS (Train.priority a)) in
  if JS.strict_neq weightDiff JS.zero then weightDiff
  else JS.sub (Train.scheduledArrival a) (Train.scheduledArrival b).

(** The candidate start of a train on a track. *)
Definition candidate_start (train : Train.t) (tracksNextFree : list JS.number)
    (trackId : nat) : JS.number :=
  JS.max (Train.scheduledArrival train) (array_get tracksNextFree trackId).

(** One iteration of the loop over the tracks; [best] is
    [(bestTrack, bestStartTime)]. *)
Definition scan_track (train : Train.t) (d : JS.number) (config : RailwayConfig.t)
    (tracksNextFree : list JS.number) (best : nat * JS.number) (trackId : nat)
  : nat * JS.number :=
  let startTime := candidate_start train tracksNextFree trackId in
  if JS.le (JS.add startTime d) (RailwayConfig.timeHorizon config) then
    if JS.lt startTime (snd best) then (trackId, startTime) else best
  else best.

Definition best_track (train : Train.t) (d : JS.number) (config : RailwayConfig.t)
    (tracksNextFree : list JS.number) : nat * JS.number :=
  fold_left (scan_track train d config tracksNextFree)
    (seq 0 (Z.to_nat (RailwayConfig.tracks config)))
    (0%nat, candidate_start train tracksNextFree 0).

(** One iteration of the loop over the sorted trains; the state is
    [(tracksNextFree, assignments)]. *)
Definition greedy_step (config : RailwayConfig.t)
    (st : list JS.number * list TrainAssignment.t) (train : Train.t)
  : list JS.number * list TrainAssignment.t :=
  match Train.duration train with
  | None => st
  | Some d =>
      if negb (JS.truthy d) then st
      else
        let '(bestTrack, bestStartTime) := best_track train d config (fst st) in
        let delay := JS.max JS.zero (JS.sub bestStartTime (Train.scheduledArrival train)) in
        (array_set (fst st) bestTrack
           (JS.add (JS.add bestStartTime d) (RailwayConfig.safetyHeadway config)),
         snd st ++ [TrainAssignment.mk (Train.id train) (Z.of_nat bestTrack)
                      bestStartTime delay])
  end.

Definition greedy_loop (config : RailwayConfig.t) (sortedTrains : list Train.t)
    (tracksNextFree : list JS.number) : list JS.number * list TrainAssignment.t :=
  fold_left (greedy_step config) sortedTrains (tracksNextFree, []).

Definition greedySchedule (trains : list Train.t) (config : RailwayConfig.t)
  : option Schedule.t :=
  tracksNextFree ← new_array_fill (RailwayConfig.tracks config) JS.zero;
  let sortedTrains := array_sort train_order trains in
  let assignments := snd (greedy_loop config sortedTrains tracksNextFree) in
  Some (computeScheduleMetrics assignments trains config).

(** ** Local improver *)

(** The callback of [assignments.map] in [trySwapTrains]: the entries of the
    two trains get their new times, any other entry is returned as it is. *)
Definition swap_entry (assignment1 assignment2 : TrainAssignment.t)
    (train1 train2 : Train.t) (newTime1 newTime2 : JS.number)
    (a : TrainAssignment.t) : TrainAssignment.t :=
  if String.eqb (TrainAssignment.trainId a) (TrainAssignment.trainId assignment1)
  then TrainAssignment.mk (TrainAssignment.trainId a) (TrainAssignment.trackId a)
         newTime1
         (JS.max JS.zero (JS.sub newTime1 (Train.scheduledArrival train1)))
  else if String.eqb (TrainAssignment.trainId a) (TrainAssignment.trainId assignment2)
  then TrainAssignment.mk (TrainAssignment.trainId a) (TrainAssignment.trackId a)
         newTime2
         (JS.max JS.zero (JS.sub newTime2 (Train.scheduledArrival train2)))
  else a.

(** [trySwapTrains]: the outer [option] is a thrown [TypeError] (a train id
    that [find] does not know), the inner one the [null] result. *)
Definition trySwapTrains (assignments : list TrainAssignment.t)
    (assignment1 assignment2 : TrainAssignment.t)
    (trains : list Train.t) (config : RailwayConfig.t)
  : option (option (list TrainAssignment.t)) :=
  train1 ← find_train trains (TrainAssignment.trainId assignment1);
  train2 ← find_train trains (TrainAssignment.trainId assignment2);
  match Train.duration train1, Train.duration train2 with
  | Some d1, Some d2 =>
      if negb (JS.truthy d1) || negb (JS.truthy d2) then Some None
      else
        let newTime1 :=
          JS.max (Train.scheduledArrival train1) (TrainAssignment.actualArrival assignment2) in
        let newTime2 :=
          JS.max (Train.scheduledArrival train2) (TrainAssignment.actualArrival assignment1) in
        if JS.gt (JS.add (JS.add newTime1 d1) (RailwayConfig.safetyHeadway config)) newTime2
           || JS.gt (JS.add newTime2 d2) (RailwayConfig.timeHorizon config)
        then Some None
        else
          Some (Some (map (swap_entry assignment1 assignment2 train1 train2
                             newTime1 newTime2) assignments))
  | _, _ => Some None
  end.

(** The variables of [applyLocalImprovements] that its loops update. *)
Module Improver.
Record t : Type := mk {
    assignments : list TrainAssignment.t;
    schedule : Schedule.t;
    improved : bool
  }.
End Improver.

(** The body of the loop over adjacent pairs, at one pair. *)
Definition try_pair (trains : list Train.t) (config : RailwayConfig.t)
    (assignment1 assignment2 : TrainAssignment.t) (st : Improver.t)
  : option Improver.t :=
  train1 ← find_train trains (TrainAssignment.trainId assignment1);
  train2 ← find_train trains (TrainAssignment.trainId assignment2);
  if JS.gt (PRIORITY_WEIGHTS (Train.priority train2))
           (PRIORITY_WEIGHTS (Train.priority train1))
  then
    swapped ← trySwapTrains (Improver.assignments st) assignment1 assignment2 trains config;
    match swapped with
    | None => Some st
    | Some newAssignments =>
        let newSchedule := computeScheduleMetrics newAssignments trains config in
        if JS.lt (Schedule.weightedDelay newSchedule)
                 (Schedule.weightedDelay (Improver.schedule st))
        then Some (Improver.mk (object_assign (Improver.assignments st) newAssignments)
                     newSchedule true)
        else Some st
    end
  else Some st.

(** The loop [for (i = 0; i < trackAssignments.length - 1; i++)]: the pairs
    are read from [trackAssignments], which the loop never refreshes. *)
Fixpoint scan_pairs (trains : list Train.t) (config : RailwayConfig.t)
    (trackAssignments : list TrainAssignment.t) (st : Improver.t)
  : option Improver.t :=
  match trackAssignments with
  | assignment1 :: ((assignment2 :: _) as rest) =>
      st' ← try_pair trains config assignment1 assignment2 st;
      scan_pairs trains config rest st'
  | _ => Some st
  end.

Definition arrival_order (a b : TrainAssignment.t) : JS.number :=
  JS.sub (TrainAssignment.actualArrival a) (TrainAssignment.actualArrival b).

(** The body of the loop over the tracks. *)
Definition improve_track (trains : list Train.t) (config : RailwayConfig.t)
    (st : Improver.t) (trackId : nat) : option Improver.t :=
  let trackAssignments :=
    array_sort arrival_order
      (List.filter (fun a => (TrainAssignment.trackId a =? Z.of_nat trackId)%Z)
         (Improver.assignments st)) in
  scan_pairs trains config trackAssignments st.

Fixpoint improve_tracks (trains : list Train.t) (config : RailwayConfig.t)
    (trackIds : list nat) (st : Improver.t) : option Improver.t :=
  match trackIds with
  | [] => Some st
  | trackId :: rest =>
      st' ← improve_track trains config st trackId;
      improve_tracks trains config rest st'
  end.

(** The [while (improved && iterations < maxIterations)] loop, entered with
    [improved] true and [fuel] iterations left. *)
Fixpoint improve_while (fuel : nat) (trains : list Train.t) (config : RailwayConfig.t)
    (st : Improver.t) : option Improver.t :=
  match fuel with
  | O => Some st
  | S fuel' =>
      st' ← improve_tracks trains config
              (seq 0 (Z.to_nat (RailwayConfig.tracks config)))
              (Improver.mk (Improver.assignments st) (Improver.schedule st) false);
      if Improver.improved st' then improve_while fuel' trains config st'
      else Some st'
  end.

Definition maxIterations : nat := 10.

Definition applyLocalImprovements (schedule : Schedule.t) (trains : list Train.t)
    (config : RailwayConfig.t) : option Schedule.t :=
  st ← improve_while maxIterations trains config
         (Improver.mk (Schedule.assignments schedule) schedule true);
  Some (Improver.schedule st).

Definition optimizedSchedule (trains : list Train.t) (config : RailwayConfig.t)
  : option Schedule.t :=
  currentSchedule ← greedySchedule trains config;
  applyLocalImprovements currentSchedule trains config.

(** ** Disruptions *)

Definition applyDisruption (trains : list Train.t) (disruption : Disruption.t)
  : list Train.t :=
  map (fun train =>
         match Disruption.type disruption, Disruption.trainId disruption,
               Disruption.delayMinutes disruption with
         | delay, Some trainId, Some delayMinutes =>
             if String.eqb (Train.id train) trainId && JS.truthy delayMinutes
             then Train.mk (Train.id train)
                    (JS.add (Train.scheduledArrival train) delayMinutes)
                    (Train.speed train) (Train.priority train) (Train.length train)
                    (Train.duration train)
             else train
         | _, _, _ => train
         end)
      trains.

(** The configuration of the run after the disruption. *)
Definition modifiedConfig (config : RailwayConfig.t) (disruption : Disruption.t)
  : RailwayConfig.t :=
  match Disruption.type disruption, Disruption.trackId disruption with
  | block_track, Some _ =>
      RailwayConfig.mk (RailwayConfig.sectionLength config)
        (RailwayConfig.timeHorizon config)
        (RailwayConfig.tracks config - 1)
        (RailwayConfig.maxTrainsPerTrack config)
        (RailwayConfig.safetyHeadway config)
  | _, _ => config
  end.

Module Comparison.
Record t : Type := mk { before : Schedule.t; after : Schedule.t }.
End Comparison.

Definition rescheduleWithDisruption (trains : list Train.t)
    (config : RailwayConfig.t) (disruption : Disruption.t) : option Comparison.t :=
  let beforeTrains := prepareTrainsData trains config in
  beforeSchedule ← optimizedSchedule beforeTrains config;
  let afterTrains := prepareTrainsData (applyDisruption trains disruption) config in
  afterSchedule ← optimizedSchedule afterTrains (modifiedConfig config disruption);
  Some (Comparison.mk beforeSchedule afterSchedule).

(** ** Gantt chart ([src/components/GanttChart.tsx]) *)

Definition TRAIN_COLORS : list string :=
  ["#3B82F6"; "#EF4444"; "#10B981"; "#F59E0B";
   "#8B5CF6"; "#06B6D4"; "#84CC16"; "#F97316";
   "#EC4899"; "#6366F1"; "#14B8A6"; "#F59E0B"]%string.

(** An entry of a row of the chart. *)
Module GanttEntry.
Record t : Type := mk {
  trainId : string;
  start : JS.number;
  duration : JS.number;
  color : string;
  priority : Priority;
  delay : JS.number
}.
End GanttEntry.

(** A row of the chart. *)
Module GanttTrack.
Record t : Type := mk {
  trackId : Z;
  assignments : list GanttEntry.t
}.
End GanttTrack.

(** [TRAIN_COLORS[index % TRAIN_COLORS.length]] *)
Definition train_color (index : nat) : string :=
  default ""%string (TRAIN_COLORS !! (index mod List.length TRAIN_COLORS)%nat).

(** The rows before any assignment is placed: one per track, in order. *)
Definition gantt_init (tracks : Z) : list GanttTrack.t :=
  map (fun i => GanttTrack.mk (Z.of_nat i) []) (seq 0 (Z.to_nat tracks)).

(** [trackData[trackId]]: [undefined] outside the array. *)
Definition gantt_row (trackData : list GanttTrack.t) (trackId : Z)
  : option GanttTrack.t :=
  if (0 <=? trackId)%Z then trackData !! Z.to_nat trackId else None.

(** The callback of [schedule.assignments.forEach]: an assignment whose train
    is missing or has no truthy duration is passed over; otherwise its entry
    is pushed on the row of its track, and reading [assignments] of a row
    that does not exist throws ([None]). *)
Definition gantt_push (trains : list Train.t) (trackData : list GanttTrack.t)
    (index : nat) (assignment : TrainAssignment.t) : option (list GanttTrack.t) :=
  match find_train trains (TrainAssignment.trainId assignment) with
  | None => Some trackData
  | Some train =>
      match Train.duration train with
      | None => Some trackData
      | Some d =>
          if negb (JS.truthy d) then Some trackData
          else
            track ← gantt_row trackData (TrainAssignment.trackId assignment);
            Some (<[Z.to_nat (TrainAssignment.trackId assignment) :=
                      GanttTrack.mk (GanttTrack.trackId track)
                        (GanttTrack.assignments track ++
                         [GanttEntry.mk (TrainAssignment.trainId assignment)
                            (TrainAssignment.actualArrival assignment) d
                            (train_color index) (Train.priority train)
                            (TrainAssignment.delay assignment)])]> trackData)
      end
  end.

(** [schedule.assignments.forEach((assignment, index) => ...)] from [index]. *)
Fixpoint gantt_populate (trains : list Train.t) (index : nat)
    (assignments : list TrainAssignment.t) (trackData : list GanttTrack.t)
  : option (list GanttTrack.t) :=
  match assignments with
  | [] => Some trackData
  | assignment :: rest =>
      trackData' ← gantt_push trains trackData index assignment;
      gantt_populate trains (S index) rest trackData'
  end.

(** The comparator [(a, b) => a.start - b.start]. *)
Definition start_order (a b : GanttEntry.t) : JS.number :=
  JS.sub (GanttEntry.start a) (GanttEntry.start b).

Definition gantt_sort (track : GanttTrack.t) : GanttTrack.t :=
  GanttTrack.mk (GanttTrack.trackId track)
    (array_sort start_order (GanttTrack.assignments track)).

(** The value of [chartData] in [GanttChart]. *)
Definition chartData (schedule : Schedule.t) (trains : list Train.t)
    (config : RailwayConfig.t) : option (list GanttTrack.t) :=
  trackData ← gantt_populate trains 0 (Schedule.assignments schedule)
                 (gantt_init (RailwayConfig.tracks config));
  Some (map gantt_sort trackData).

(** The geometry of the chart. *)

Definition trackHeight : JS.number := JS.Fin 60.

(** [config.tracks * (trackHeight + 10) + 40] *)
Definition chartHeight (config : RailwayConfig.t) : JS.number :=
  JS.add (JS.mul (JS.Fin (inject_Z (RailwayConfig.tracks config)))
            (JS.add trackHeight (JS.Fin 10)))
         (JS.Fin 40).







(** ** Specification-side definitions

    The notions the properties below are stated with; none of them is used by
    the functions above. *)


(** The train and the duration with which the metrics count an assignment:
    the train must exist and its duration be truthy. *)
Definition counted_with (trains : list Train.t) (a : TrainAssignment.t)
  : option (Train.t * JS.number) :=
  match find_train trains (TrainAssignment.trainId a) with
  | Some train =>
      match Train.duration train with
      | Some d => if JS.truthy d then Some (train, d) else None
      | None => None
      end
  | None => None
  end.

(** The counted assignments of a list, each with its train and duration. *)
Fixpoint counted (trains : list Train.t) (assignments : list TrainAssignment.t)
  : list (TrainAssignment.t * Train.t * JS.number) :=
  match assignments with
  | [] => []
  | a :: rest =>
      match counted_with trains a with
      | Some (train, d) => (a, train, d) :: counted trains rest
      | None => counted trains rest
      end
  end.

Definition on_track (k : Z) (c : TrainAssignment.t * Train.t * JS.number) : bool :=
  (TrainAssignment.trackId (fst (fst c)) =? k)%Z.

Definition ends_within (config : RailwayConfig.t)
    (c : TrainAssignment.t * Train.t * JS.number) : bool :=
  JS.le (JS.add (TrainAssignment.actualArrival (fst (fst c))) (snd c))
        (RailwayConfig.timeHorizon config).

(** A track is feasible for a train when its candidate start plus the
    duration is at most the horizon. *)
Definition feasible (train : Train.t) (d : JS.number) (config : RailwayConfig.t)
    (tracksNextFree : list JS.number) (k : nat) : Prop :=
  JS.le (JS.add (candidate_start train tracksNextFree k) d)
        (RailwayConfig.timeHorizon config) = true.

(** The choice of the greedy assigner in the words of the specification:
    the train starts at the candidate start of one of the tracks; among the
    feasible tracks that is the smallest candidate start, the lowest index
    on a tie; it is track 0 when no track is feasible. *)
Definition spec_choice (train : Train.t) (d : JS.number) (config : RailwayConfig.t)
    (tracksNextFree : list JS.number) (k : nat) (start : JS.number) : Prop :=
  let n := Z.to_nat (RailwayConfig.tracks config) in
  let cand := candidate_start train tracksNextFree in
  let ok := feasible train d config tracksNextFree in
  (k < n)%nat /\ start = cand k /\
  ((exists j, (j < n)%nat /\ ok j) ->
     ok k /\
     (forall j, (j < n)%nat -> ok j -> JS.le (cand k) (cand j) = true) /\
     (forall j, (j < k)%nat -> ok j -> JS.lt (cand k) (cand j) = true)) /\
  ((forall j, (j < n)%nat -> ~ ok j) -> k = 0%nat).

(** A run of the greedy assigner in the words of the specification: trains
    are taken in order, a train without a truthy duration is skipped, any
    other train receives exactly one assignment, on the track of
    [spec_choice], and that track is next free after the train's start, its
    duration and the headway. *)
Inductive greedy_spec (config : RailwayConfig.t)
  : list JS.number -> list Train.t -> list TrainAssignment.t -> Prop :=
| greedy_spec_done tracksNextFree :
    greedy_spec config tracksNextFree [] []
| greedy_spec_skip tracksNextFree train rest assignments :
    JS.truthy_opt (Train.duration train) = false ->
    greedy_spec config tracksNextFree rest assignments ->
    greedy_spec config tracksNextFree (train :: rest) assignments
| greedy_spec_assign tracksNextFree train d rest assignments k start :
    Train.duration train = Some d ->
    JS.truthy d = true ->
    spec_choice train d config tracksNextFree k start ->
    greedy_spec config
      (array_set tracksNextFree k
         (JS.add (JS.add start d) (RailwayConfig.safetyHeadway config)))
      rest assignments ->
    greedy_spec config tracksNextFree (train :: rest)
      (TrainAssignment.mk (Train.id train) (Z.of_nat k) start
         (JS.max JS.zero (JS.sub start (Train.scheduledArrival train)))
       :: assignments).

(** What [(bestTrack, bestStartTime)] satisfies once the tracks below [m]
    are scanned: either no track so far is feasible and track 0 is kept, or
    the best feasible track so far is held. *)
Definition scan_invariant (train : Train.t) (d : JS.number) (config : RailwayConfig.t)
    (tracksNextFree : list JS.number) (m : nat) (best : nat * JS.number) : Prop :=
  let cand := candidate_start train tracksNextFree in
  let ok := feasible train d config tracksNextFree in
  snd best = cand (fst best) /\
  ((fst best = 0%nat /\ forall j, (j < m)%nat -> ~ ok j) \/
   ((fst best < m)%nat /\ ok (fst best) /\
    (forall j, (j < m)%nat -> ok j -> JS.le (cand (fst best)) (cand j) = true) /\
    (forall j, (j < fst best)%nat -> ok j -> JS.lt (cand (fst best)) (cand j) = true))).

(** Well-formed inputs. *)

Definition valid_tracks (config : RailwayConfig.t) : Prop :=
  (1 <= RailwayConfig.tracks config < 2 ^ 32)%Z.

Definition unique_ids (trains : list Train.t) : Prop :=
  NoDup (map Train.id trains).

(** The scheduled arrival is finite, and so is the duration when present. *)
Definition finite_train (train : Train.t) : Prop :=
  JS.finite (Train.scheduledArrival train) /\
  match Train.duration train with
  | Some d => JS.finite d
  | None => True
  end.

(** The scheduled arrival is finite and the duration, when present, is not
    [-Infinity]. *)
Definition timed_train (train : Train.t) : Prop :=
  JS.finite (Train.scheduledArrival train) /\
  Train.duration train <> Some JS.NegInf.

(** The scheduled arrival is finite and the duration a positive rational. *)
Definition positive_train (train : Train.t) : Prop :=
  JS.finite (Train.scheduledArrival train) /\
  exists d, Train.duration train = Some (JS.Fin d) /\ 0 < d.

(** The scheduled arrival is finite and the speed a positive rational. *)
Definition positive_speed (train : Train.t) : Prop :=
  JS.finite (Train.scheduledArrival train) /\
  exists v, Train.speed train = JS.Fin v /\ 0 < v.

Definition nonneg_headway (config : RailwayConfig.t) : Prop :=
  exists h, RailwayConfig.safetyHeadway config = JS.Fin h /\ 0 <= h.


(** Two neighbours of a sorted array are in order: the comparator does not
    put the first after the second. *)
Definition in_order {A : Type} (cmp : A -> A -> JS.number) (x y : A) : Prop :=
  JS.gt (cmp x y) JS.zero = false.

(** Invariants of the schedules. *)

(** An assignment is well formed: its track exists, and it belongs to a train
    of the list, at or after that train's scheduled arrival, with the delay
    between the two. *)
Definition assignment_ok (trains : list Train.t) (config : RailwayConfig.t)
    (a : TrainAssignment.t) : Prop :=
  (0 <= TrainAssignment.trackId a < RailwayConfig.tracks config)%Z /\
  JS.finite (TrainAssignment.actualArrival a) /\
  exists train,
    In train trains /\ Train.id train = TrainAssignment.trainId a /\
    JS.finite (Train.scheduledArrival train) /\
    JS.le (Train.scheduledArrival train) (TrainAssignment.actualArrival a) = true /\
    TrainAssignment.delay a =
      JS.max JS.zero
        (JS.sub (TrainAssignment.actualArrival a) (Train.scheduledArrival train)).




Definition has_duration (train : Train.t) : bool :=
  JS.truthy_opt (Train.duration train).

(** Invariants of the local improver. *)

(** The train that an assignment names is in the list. *)
Definition known_train (trains : list Train.t) (a : TrainAssignment.t) : Prop :=
  is_Some (find_train trains (TrainAssignment.trainId a)).

(** The array of the improver and the assignments of its schedule name the
    trains [ids], in this order, and all of them are known. *)
Definition ids_invariant (trains : list Train.t) (ids : list string)
    (st : Improver.t) : Prop :=
  map TrainAssignment.trainId (Improver.assignments st) = ids /\
  map TrainAssignment.trainId (Schedule.assignments (Improver.schedule st)) = ids /\
  Forall (known_train trains) (Improver.assignments st).

(** The array of the improver and the assignments of its schedule are well
    formed. *)
Definition ok_invariant (trains : list Train.t) (config : RailwayConfig.t)
    (st : Improver.t) : Prop :=
  Forall (assignment_ok trains config) (Improver.assignments st) /\
  Forall (assignment_ok trains config) (Schedule.assignments (Improver.schedule st)).

(** The schedule of the improver is the initial one or has a strictly
    smaller weighted delay. *)
Definition delay_invariant (initial : Schedule.t) (st : Improver.t) : Prop :=
  Improver.schedule st = initial \/
  JS.lt (Schedule.weightedDelay (Improver.schedule st))
        (Schedule.weightedDelay initial) = true.

(** What the improver needs of an assignment to refuse every swap: its
    train is found, has a positive duration, and the assignment does not
    start before the scheduled arrival. *)
Definition settled (trains : list Train.t) (a : TrainAssignment.t) : Prop :=
  exists train x s d,
    find_train trains (TrainAssignment.trainId a) = Some train /\
    TrainAssignment.actualArrival a = JS.Fin x /\
    Train.scheduledArrival train = JS.Fin s /\
    Train.duration train = Some (JS.Fin d) /\
    s <= x /\ 0 < d.

(** ** Concrete inputs *)

Module Examples.
(** One track, horizon 180, headway 3, a section of 5 km. *)
Definition config : RailwayConfig.t :=
  RailwayConfig.mk (JS.Fin 5) (JS.Fin 180) 1 (JS.Fin 10) (JS.Fin 3).

(** The default configuration of the dashboard: three tracks. *)
Definition default_config : RailwayConfig.t :=
  RailwayConfig.mk (JS.Fin 5) (JS.Fin 180) 3 (JS.Fin 10) (JS.Fin 3).

(** A configuration whose section has no length: every duration is 0. *)
Definition flat_config : RailwayConfig.t :=
  RailwayConfig.mk (JS.Fin 0) (JS.Fin 180) 3 (JS.Fin 10) (JS.Fin 3).

Definition trainA : Train.t :=
  Train.mk "A" (JS.Fin 0) (JS.Fin 30) high (JS.Fin 200) (Some (JS.Fin 10)).
Definition trainB : Train.t :=
  Train.mk "B" (JS.Fin 5) (JS.Fin 30) medium (JS.Fin 200) (Some (JS.Fin 10)).

(** The first three default trains of the dashboard. *)
Definition T1 : Train.t :=
  Train.mk "T1" (JS.Fin 5) (JS.Fin 60) high (JS.Fin 200) None.
Definition T2 : Train.t :=
  Train.mk "T2" (JS.Fin 8) (JS.Fin 40) medium (JS.Fin 300) None.
Definition T3 : Train.t :=
  Train.mk "T3" (JS.Fin 10) (JS.Fin 80) high (JS.Fin 220) None.

(** Trains with a negative and with a zero speed. *)
Definition reversing : Train.t :=
  Train.mk "R" (JS.Fin 0) (JS.Fin (-60)) low (JS.Fin 200) None.
Definition stopped : Train.t :=
  Train.mk "S" (JS.Fin 0) (JS.Fin 0) low (JS.Fin 200) None.

(** The default disruption of the dashboard and two track blocks. *)
Definition delay_T3 : Disruption.t :=
  Disruption.mk delay (Some "T3"%string) (Some (JS.Fin 12)) None.
Definition block_0 : Disruption.t :=
  Disruption.mk block_track None None (Some 0%Z).
Definition block_2 : Disruption.t :=
  Disruption.mk block_track None None (Some 2%Z).
End Examples.

(** ** Further notions *)

(** The train and the track of an assignment. *)
Definition placement (a : TrainAssignment.t) : string * Z :=
  (TrainAssignment.trainId a, TrainAssignment.trackId a).

(** The array of the improver and the assignments of its schedule have the
    placements [keys], in this order. *)
Definition placement_invariant (keys : list (string * Z)) (st : Improver.t) : Prop :=
  map placement (Improver.assignments st) = keys /\
  map placement (Schedule.assignments (Improver.schedule st)) = keys.

(** The aggregates of a schedule are the metrics of its own assignments. *)
Definition consistent (trains : list Train.t) (config : RailwayConfig.t)
    (s : Schedule.t) : Prop :=
  s = computeScheduleMetrics (Schedule.assignments s) trains config.

Definition consistent_invariant (trains : list Train.t) (config : RailwayConfig.t)
    (st : Improver.t) : Prop :=
  consistent trains config (Improver.schedule st).

(** The schedule without assignments. *)
Definition empty_schedule (config : RailwayConfig.t) : Schedule.t :=
  Schedule.mk [] JS.zero JS.zero 0%nat (init_utilization (RailwayConfig.tracks config)).


(** The order in which the greedy assigner takes two trains: the higher
    priority weight first, the earlier scheduled arrival first among trains
    of one priority. *)
Definition train_before (a b : Train.t) : Prop :=
  JS.lt (PRIORITY_WEIGHTS (Train.priority b)) (PRIORITY_WEIGHTS (Train.priority a)) = true \/
  (Train.priority a = Train.priority b /\
   JS.le (Train.scheduledArrival a) (Train.scheduledArrival b) = true).


(** The entry that the chart draws for the assignment at position [index]:
    none when its train is missing or has no truthy duration. *)
Definition gantt_entry (trains : list Train.t) (index : nat)
    (a : TrainAssignment.t) : option GanttEntry.t :=
  match counted_with trains a with
  | Some (train, d) =>
      Some (GanttEntry.mk (TrainAssignment.trainId a)
              (TrainAssignment.actualArrival a) d (train_color index)
              (Train.priority train) (TrainAssignment.delay a))
  | None => None
  end.

(** The entries of the assignments on [track], in the order of the
    assignments, the first of which is at position [index]. *)
Fixpoint gantt_entries (trains : list Train.t) (index : nat)
    (assignments : list TrainAssignment.t) (track : Z) : list GanttEntry.t :=
  match assignments with
  | [] => []
  | a :: rest =>
      match gantt_entry trains index a with
      | Some e =>
          if (TrainAssignment.trackId a =? track)%Z
          then e :: gantt_entries trains (S index) rest track
          else gantt_entries trains (S index) rest track
      | None => gantt_entries trains (S index) rest track
      end
  end.

(** The chart can place the assignment: it draws no entry for it, or its
    track is one of the [tracks] rows. *)
Definition drawable (trains : list Train.t) (tracks : Z)
    (a : TrainAssignment.t) : Prop :=
  counted_with trains a = None \/ (0 <= TrainAssignment.trackId a < tracks)%Z.

(** The first entry does not start after the second. *)
Definition start_before (a b : GanttEntry.t) : Prop :=
  JS.le (GanttEntry.start a) (GanttEntry.start b) = true.

(** What [gantt_populate] has added to a row at position [i]. *)
Definition gantt_filled (trains : list Train.t) (index : nat)
    (assignments : list TrainAssignment.t) (i : nat) (row : GanttTrack.t)
  : GanttTrack.t :=
  GanttTrack.mk (GanttTrack.trackId row)
    (GanttTrack.assignments row ++ gantt_entries trains index assignments (Z.of_nat i)).

(** Further concrete inputs. *)
Module MoreExamples.

(** Two assignments on the only track of [Examples.config]. *)
Definition first_A : TrainAssignment.t :=
  TrainAssignment.mk "A" 0 (JS.Fin 0) (JS.Fin 0).
Definition then_B : TrainAssignment.t :=
  TrainAssignment.mk "B" 0 (JS.Fin 13) (JS.Fin 8).

(** A schedule with these assignments. *)
Definition schedule : Schedule.t :=
  Schedule.mk [first_A; then_B] (JS.Fin 8) (JS.Fin 16) 2 ∅.

(** Two assignments that can change places. *)
Definition late_A : TrainAssignment.t :=
  TrainAssignment.mk "A" 0 (JS.Fin 20) (JS.Fin 20).
Definition early_B : TrainAssignment.t :=
  TrainAssignment.mk "B" 0 (JS.Fin 0) (JS.Fin 0).

(** An assignment on a track that [Examples.default_config] does not have. *)
Definition stray_A : TrainAssignment.t :=
  TrainAssignment.mk "A" 5 (JS.Fin 0) (JS.Fin 0).

(** Disruptions that delay T1 and a train that does not exist. *)
Definition delay_T1 : Disruption.t :=
  Disruption.mk delay (Some "T1"%string) (Some (JS.Fin 4)) None.
Definition delay_T9 : Disruption.t :=
  Disruption.mk delay (Some "T9"%string) (Some (JS.Fin 12)) None.

End MoreExamples.

(** A train that can run on time: it is scheduled at or after 0, has a
    positive finite duration and, entering at its scheduled arrival, leaves
    the section within the horizon. *)
Definition punctual_train (config : RailwayConfig.t) (train : Train.t) : Prop :=
  exists s d H,
    Train.scheduledArrival train = JS.Fin s /\
    Train.duration train = Some (JS.Fin d) /\
    RailwayConfig.timeHorizon config = JS.Fin H /\
    0 <= s /\ 0 < d /\ s + d <= H.

(** The assignment enters at the scheduled arrival of a train of the list
    that has its id, and its delay is 0. *)
Definition on_time (trains : list Train.t) (a : TrainAssignment.t) : Prop :=
  TrainAssignment.delay a = JS.zero /\
  exists train,
    In train trains /\ Train.id train = TrainAssignment.trainId a /\
    TrainAssignment.actualArrival a = Train.scheduledArrival train.

(** The tracks from index [p] on have not been used: they are free at 0. *)
Definition fresh_from (p : nat) (tracksNextFree : list JS.number) : Prop :=
  forall j, (p <= j < List.length tracksNextFree)%nat ->
    array_get tracksNextFree j = JS.zero.

(** ** Facts about JavaScript numbers *)

Module JSFacts.
Import JS.

Lemma Qlt_bool_iff (a b : Q) : Qlt_bool a b = true <-> a < b.
Proof.
  unfold Qlt_bool. rewrite negb_true_iff.
  destruct (Qle_bool b a) eqn:E.
  - apply Qle_bool_iff in E. split; [discriminate | lra].
  - split; [intros _ | reflexivity].
    destruct (Qlt_le_dec a b) as [Hlt | Hle]; [exact Hlt |].
    apply Qle_bool_iff in Hle. congruence.
Qed.

Lemma Qlt_bool_false (a b : Q) : Qlt_bool a b = false <-> b <= a.
Proof.
  unfold Qlt_bool. rewrite negb_false_iff. apply Qle_bool_iff.
Qed.

Lemma Qle_bool_false (a b : Q) : Qle_bool a b = false <-> b < a.
Proof.
  rewrite <- Qlt_bool_iff. unfold Qlt_bool. rewrite negb_true_iff. reflexivity.
Qed.

Lemma Qeq_bool_false (a b : Q) : Qeq_bool a b = false <-> ~ a == b.
Proof.
  rewrite <- Qeq_bool_iff. destruct (Qeq_bool a b); split; congruence.
Qed.

Lemma lt_Fin (a b : Q) : lt (Fin a) (Fin b) = true <-> a < b.
Proof. apply Qlt_bool_iff. Qed.

Lemma lt_Fin_false (a b : Q) : lt (Fin a) (Fin b) = false <-> b <= a.
Proof. apply Qlt_bool_false. Qed.

Lemma le_Fin (a b : Q) : le (Fin a) (Fin b) = true <-> a <= b.
Proof. apply Qle_bool_iff. Qed.

Lemma le_Fin_false (a b : Q) : le (Fin a) (Fin b) = false <-> b < a.
Proof. apply Qle_bool_false. Qed.

Lemma finite_Fin (x : number) : finite x <-> exists q, x = Fin q.
Proof.
  destruct x; simpl; split; try tauto; try (intros [q Hq]; discriminate); eauto.
Qed.

Lemma max_Fin (a b : Q) :
  exists c, max (Fin a) (Fin b) = Fin c /\ a <= c /\ b <= c /\ (c = a \/ c = b).
Proof.
  unfold max. destruct (lt (Fin a) (Fin b)) eqn:E.
  - apply lt_Fin in E. exists b. repeat split; try lra. now right.
  - apply lt_Fin_false in E. exists a. repeat split; try lra. now left.
Qed.

Lemma lt_trans (x y z : number) : lt x y = true -> lt y z = true -> lt x z = true.
Proof.
  destruct x, y, z; simpl; try congruence.
  rewrite !Qlt_bool_iff. lra.
Qed.

Lemma lt_le (x y : number) : lt x y = true -> le x y = true.
Proof.
  destruct x, y; simpl; try congruence.
  rewrite Qlt_bool_iff, Qle_bool_iff. lra.
Qed.

Lemma le_refl (x : number) : is_nan x = false -> le x x = true.
Proof.
  destruct x; simpl; try congruence. intros _. apply Qle_bool_iff. lra.
Qed.

Lemma same_refl (x : number) : same x x.
Proof. destruct x; simpl; auto. reflexivity. Qed.

Lemma lt_irrefl (x : number) : lt x x = false.
Proof.
  destruct x; simpl; try reflexivity. apply Qlt_bool_false. lra.
Qed.

Lemma lt_le_trans (x y z : number) : lt x y = true -> le y z = true -> lt x z = true.
Proof.
  destruct x, y, z; simpl; try congruence.
  rewrite !Qlt_bool_iff, Qle_bool_iff. lra.
Qed.

Lemma finite_time (x : number) : finite x -> is_time x.
Proof. destruct x; simpl; auto. Qed.

Lemma le_refl_time (x : number) : is_time x -> le x x = true.
Proof. destruct x; simpl; try tauto. intros _. apply Qle_bool_iff. lra. Qed.

(** Times are totally ordered. *)
Lemma not_lt_le (x y : number) :
  is_time x -> is_time y -> lt x y = false -> le y x = true.
Proof.
  destruct x, y; simpl; try tauto; try congruence.
  intros _ _. rewrite Qlt_bool_false, Qle_bool_iff. auto.
Qed.

Lemma max_time (s : Q) (y : number) :
  is_time y ->
  is_time (max (Fin s) y) /\ le (Fin s) (max (Fin s) y) = true /\
  le y (max (Fin s) y) = true.
Proof.
  destruct y as [| |b|]; try (simpl; tauto); intros _.
  destruct (max_Fin s b) as (c & -> & Hs & Hb & _).
  split; [exact I |]. split; apply le_Fin; assumption.
Qed.

Lemma add_time (x y : number) : is_time x -> is_time y -> is_time (add x y).
Proof. destruct x, y; simpl; tauto. Qed.

Lemma truthy_time (d : number) : truthy d = true -> d <> NegInf -> is_time d.
Proof. destruct d; simpl; try congruence; auto. Qed.

(** Adding a duration keeps the order of two times under a bound. *)
Lemma add_le_mono (x y d H : number) :
  is_time x -> le x y = true -> le (add y d) H = true -> le (add x d) H = true.
Proof.
  destruct x as [| |a|], y as [| |b|], d as [| |q|], H as [| |c|];
    simpl; try tauto; try congruence.
  intros _. rewrite !Qle_bool_iff. lra.
Qed.

End JSFacts.

(** Turns the boolean comparisons of finite numbers in the context and the
    goal into inequalities of rationals. *)
Ltac js_order :=
  repeat match goal with
  | H : JS.lt (JS.Fin _) (JS.Fin _) = true |- _ => apply JSFacts.lt_Fin in H
  | H : JS.lt (JS.Fin _) (JS.Fin _) = false |- _ => apply JSFacts.lt_Fin_false in H
  | H : JS.le (JS.Fin _) (JS.Fin _) = true |- _ => apply JSFacts.le_Fin in H
  | H : JS.le (JS.Fin _) (JS.Fin _) = false |- _ => apply JSFacts.le_Fin_false in H
  | H : JS.gt (JS.Fin _) (JS.Fin _) = true |- _ => apply JSFacts.lt_Fin in H
  | H : JS.gt (JS.Fin _) (JS.Fin _) = false |- _ => apply JSFacts.lt_Fin_false in H
  | |- JS.lt (JS.Fin _) (JS.Fin _) = true => apply JSFacts.lt_Fin
  | |- JS.lt (JS.Fin _) (JS.Fin _) = false => apply JSFacts.lt_Fin_false
  | |- JS.le (JS.Fin _) (JS.Fin _) = true => apply JSFacts.le_Fin
  | |- JS.le (JS.Fin _) (JS.Fin _) = false => apply JSFacts.le_Fin_false
  | |- JS.gt (JS.Fin _) (JS.Fin _) = true => apply JSFacts.lt_Fin
  | |- JS.gt (JS.Fin _) (JS.Fin _) = false => apply JSFacts.lt_Fin_false
  end.

(** ** The metrics calculator *)

Section Metrics.
Variable trains : list Train.t.
Variable config : RailwayConfig.t.

Lemma metrics_step_counted acc a train d :
  counted_with trains a = Some (train, d) ->
  metrics_step trains config acc a =
  Schedule.mk (Schedule.assignments acc)
    (JS.add (Schedule.totalDelay acc) (TrainAssignment.delay a))
    (JS.add (Schedule.weightedDelay acc)
       (JS.mul (TrainAssignment.delay a) (PRIORITY_WEIGHTS (Train.priority train))))
    (if ends_within config (a, train, d)
     then S (Schedule.finished acc) else Schedule.finished acc)
    (<[TrainAssignment.trackId a :=
         JS.add (JS.to_number (Schedule.utilization acc !! TrainAssignment.trackId a)) d]>
       (Schedule.utilization acc)).
Proof.
  unfold counted_with, metrics_step.
  destruct (find_train trains (TrainAssignment.trainId a)) as [t|]; [|discriminate].
  destruct (Train.duration t) as [d'|]; [|discriminate].
  destruct (JS.truthy d') eqn:E; [|discriminate].
  intros [= <- <-]. reflexivity.
Qed.

Lemma metrics_step_skipped acc a :
  counted_with trains a = None -> metrics_step trains config acc a = acc.
Proof.
  unfold counted_with, metrics_step.
  destruct (find_train trains (TrainAssignment.trainId a)) as [t|]; [|reflexivity].
  destruct (Train.duration t) as [d'|]; [|reflexivity].
  destruct (JS.truthy d') eqn:E; [discriminate | reflexivity].
Qed.

(** The loop over the assignments, from any accumulator. *)
Lemma metrics_fold l : forall acc,
  let s := fold_left (metrics_step trains config) l acc in
  let c := counted trains l in
  Schedule.assignments s = Schedule.assignments acc /\
  Schedule.totalDelay s =
    fold_left JS.add (map (fun x => TrainAssignment.delay (fst (fst x))) c)
      (Schedule.totalDelay acc) /\
  Schedule.weightedDelay s =
    fold_left JS.add
      (map (fun x => JS.mul (TrainAssignment.delay (fst (fst x)))
                       (PRIORITY_WEIGHTS (Train.priority (snd (fst x))))) c)
      (Schedule.weightedDelay acc) /\
  Schedule.finished s =
    (List.length (List.filter (ends_within config) c) + Schedule.finished acc)%nat /\
  (forall k v, Schedule.utilization acc !! k = Some v ->
     Schedule.utilization s !! k =
     Some (fold_left JS.add (map snd (List.filter (on_track k) c)) v)).
Proof.
  induction l as [|a l IH]; intros acc; simpl.
  - repeat split; auto.
  - destruct (counted_with trains a) as [[train d]|] eqn:E.
    + rewrite (metrics_step_counted acc a train d E).
      destruct (IH (Schedule.mk (Schedule.assignments acc)
        (JS.add (Schedule.totalDelay acc) (TrainAssignment.delay a))
        (JS.add (Schedule.weightedDelay acc)
           (JS.mul (TrainAssignment.delay a) (PRIORITY_WEIGHTS (Train.priority train))))
        (if ends_within config (a, train, d)
         then S (Schedule.finished acc) else Schedule.finished acc)
        (<[TrainAssignment.trackId a :=
             JS.add (JS.to_number (Schedule.utilization acc !! TrainAssignment.trackId a)) d]>
           (Schedule.utilization acc))))
        as (Ha & Ht & Hw & Hf & Hu); simpl in *.
      repeat split; auto.
      * rewrite Hf. destruct (ends_within config (a, train, d)); simpl; lia.
      * intros k v Hk. unfold on_track at 1. simpl.
        destruct (Z.eqb_spec (TrainAssignment.trackId a) k) as [Heq|Hne]; simpl.
        -- subst k. rewrite (Hu _ (JS.add v d)); [reflexivity |].
           rewrite lookup_insert_eq, Hk. reflexivity.
        -- apply Hu. rewrite lookup_insert_ne; auto.
    + rewrite (metrics_step_skipped acc a E). apply IH.
Qed.

Lemma init_utilization_lookup (n : nat) (k : Z) :
  fold_left (fun u i => <[Z.of_nat i := JS.zero]> u) (seq 0 n) (∅ : gmap Z JS.number) !! k
  = if decide (0 <= k < Z.of_nat n)%Z then Some JS.zero else None.
Proof.
  induction n as [|n IH].
  - simpl. rewrite lookup_empty. case_decide; [lia | reflexivity].
  - rewrite seq_S, fold_left_app. simpl.
    destruct (decide (Z.of_nat n = k)) as [<-|Hne].
    + clear IH. rewrite lookup_insert_eq. case_decide; [reflexivity | lia].
    + rewrite lookup_insert_ne by assumption. rewrite IH.
      repeat case_decide; try reflexivity; lia.
Qed.
End Metrics.


(** ** The example of the specification *)

(** C10. One track, horizon 180, headway 3, train A (arrival 0, duration 10,
    high) and train B (arrival 5, duration 10, medium): after A the track is
    next free at minute 13, and [greedySchedule] assigns A to track 0 at 0
    with delay 0 and B to track 0 at 13 with delay 8, in whichever order the
    two trains are given. *)
Theorem greedySchedule_example :
  forall (speedA speedB lengthA lengthB sectionLength maxTrainsPerTrack : JS.number),
    let A := Train.mk "A" (JS.Fin 0) speedA high lengthA (Some (JS.Fin 10)) in
    let B := Train.mk "B" (JS.Fin 5) speedB medium lengthB (Some (JS.Fin 10)) in
    let config :=
      RailwayConfig.mk sectionLength (JS.Fin 180) 1 maxTrainsPerTrack (JS.Fin 3) in
    let expected :=
      [TrainAssignment.mk "A" 0 (JS.Fin 0) (JS.Fin 0);
       TrainAssignment.mk "B" 0 (JS.Fin 13) (JS.Fin 8)] in
    fst (greedy_loop config [A] [JS.zero]) = [JS.Fin 13] /\
    Schedule.assignments <$> greedySchedule [A; B] config = Some expected /\
    Schedule.assignments <$> greedySchedule [B; A] config = Some expected.
Proof.
  intros. repeat split; reflexivity.
Qed.

(** ** Disruptions *)

Lemma lookup_map {A B : Type} (f : A -> B) (l : list A) (i : nat) :
  map f l !! i = f <$> l !! i.
Proof.
  revert i. induction l as [|x l IH]; intros [|i]; simpl; auto.
Qed.

(** C8. For a delay disruption whose [delayMinutes] is at least [0],
    [applyDisruption] returns a list of the same length in which, position by
    position, a train whose id is the disruption's [trainId] has its
    scheduled arrival increased by [delayMinutes] and every other field as it
    was, and any other train is the very same record.  The functions are pure:
    the result is built by [map] and record construction, so the input list
    and its trains are untouched. *)
Theorem applyDisruption_delay :
  forall (trains : list Train.t) (disruption : Disruption.t) (delayMinutes : JS.number),
    Disruption.type disruption = delay ->
    Disruption.delayMinutes disruption = Some delayMinutes ->
    JS.le JS.zero delayMinutes = true ->
    let trains' := applyDisruption trains disruption in
    List.length trains' = List.length trains /\
    forall (i : nat) (train : Train.t),
      trains !! i = Some train ->
      exists train',
        trains' !! i = Some train' /\
        Train.id train' = Train.id train /\
        Train.speed train' = Train.speed train /\
        Train.priority train' = Train.priority train /\
        Train.length train' = Train.length train /\
        Train.duration train' = Train.duration train /\
        (Disruption.trainId disruption = Some (Train.id train) ->
           JS.same (Train.scheduledArrival train')
                   (JS.add (Train.scheduledArrival train) delayMinutes)) /\
        (Disruption.trainId disruption <> Some (Train.id train) -> train' = train).
Proof.
  intros trains disruption delayMinutes Hty Hdm Hle trains'. split.
  - apply length_map.
  - intros i train Hi. subst trains'. unfold applyDisruption.
    rewrite lookup_map, Hi. simpl. rewrite Hty, Hdm.
    eexists. split; [reflexivity |].
    destruct (Disruption.trainId disruption) as [tid|] eqn:Htid.
    + destruct (String.eqb_spec (Train.id train) tid) as [Heq|Hne]; simpl.
      * destruct (JS.truthy delayMinutes) eqn:Htr; simpl.
        -- repeat split; auto.
           ++ intros _. apply JSFacts.same_refl.
           ++ intros Hn. congruence.
        -- repeat split; auto.
           ++ intros _.
              destruct delayMinutes as [| |m|]; simpl in Htr, Hle; try discriminate.
              apply negb_false_iff, Qeq_bool_iff in Htr.
              destruct (Train.scheduledArrival train); simpl; auto. lra.
      * repeat split; auto. intros [= Hn]. congruence.
    + repeat split; auto. discriminate.
Qed.

Lemma applyDisruption_delay_witness :
  List.length (applyDisruption [Examples.T1; Examples.T3] Examples.delay_T3) = 2%nat /\
  applyDisruption [Examples.T1; Examples.T3] Examples.delay_T3 !! 1%nat =
    Some (Train.mk "T3" (JS.Fin 22) (JS.Fin 80) high (JS.Fin 220) None).
Proof.
  destruct (applyDisruption_delay [Examples.T1; Examples.T3] Examples.delay_T3
              (JS.Fin 12) eq_refl eq_refl eq_refl) as [Hlen _].
  split; [exact Hlen | reflexivity].
Defined.

(** C9. For a block-track disruption that names a track id,
    [applyDisruption] returns the trains as they are, the configuration of
    the run after the disruption is the given one with [tracks] reduced by
    one and every other field kept, [rescheduleWithDisruption] computes
    [before] from the prepared trains with the given configuration and
    [after] from the same prepared trains with the reduced one, and the
    result is the same whichever track id is named. *)
Theorem rescheduleWithDisruption_block_track :
  forall (trains : list Train.t) (config : RailwayConfig.t)
         (disruption : Disruption.t) (k : Z),
    Disruption.type disruption = block_track ->
    Disruption.trackId disruption = Some k ->
    let reduced :=
      RailwayConfig.mk (RailwayConfig.sectionLength config)
        (RailwayConfig.timeHorizon config)
        (RailwayConfig.tracks config - 1)
        (RailwayConfig.maxTrainsPerTrack config)
        (RailwayConfig.safetyHeadway config) in
    applyDisruption trains disruption = trains /\
    modifiedConfig config disruption = reduced /\
    rescheduleWithDisruption trains config disruption =
      (before ← optimizedSchedule (prepareTrainsData trains config) config;
       after ← optimizedSchedule (prepareTrainsData trains config) reduced;
       Some (Comparison.mk before after)) /\
    (forall (other : Disruption.t) (k' : Z),
       Disruption.type other = block_track ->
       Disruption.trackId other = Some k' ->
       rescheduleWithDisruption trains config other =
       rescheduleWithDisruption trains config disruption).
Proof.
  intros trains config disruption k Hty Hk reduced.
  assert (Hsame : forall d : Disruption.t,
            Disruption.type d = block_track -> applyDisruption trains d = trains).
  { intros d Hd. unfold applyDisruption. rewrite Hd. apply map_id. }
  assert (Hcfg : forall (d : Disruption.t) (j : Z),
            Disruption.type d = block_track -> Disruption.trackId d = Some j ->
            modifiedConfig config d = reduced).
  { intros d j Hd Hj. unfold modifiedConfig. rewrite Hd, Hj. reflexivity. }
  assert (Hres : forall (d : Disruption.t) (j : Z),
            Disruption.type d = block_track -> Disruption.trackId d = Some j ->
            rescheduleWithDisruption trains config d =
            (before ← optimizedSchedule (prepareTrainsData trains config) config;
             after ← optimizedSchedule (prepareTrainsData trains config) reduced;
             Some (Comparison.mk before after))).
  { intros d j Hd Hj. unfold rescheduleWithDisruption.
    rewrite (Hsame d Hd), (Hcfg d j Hd Hj). reflexivity. }
  repeat split; eauto.
  intros other k' Ho Hk'. rewrite (Hres other k' Ho Hk'), (Hres disruption k Hty Hk).
  reflexivity.
Qed.

(** ** Arrays of finite numbers *)

Lemma array_get_finite (a : list JS.number) (i : nat) :
  Forall JS.finite a -> (i < List.length a)%nat -> exists f, array_get a i = JS.Fin f.
Proof.
  intros Hfin Hi. unfold array_get.
  destruct (lookup_lt_is_Some_2 a i Hi) as [x Hx]. rewrite Hx. simpl.
  apply JSFacts.finite_Fin. exact (Forall_lookup_1 _ _ _ _ Hfin Hx).
Qed.


Lemma array_get_set_ne (a : list JS.number) (i j : nat) (v : JS.number) :
  (i < List.length a)%nat -> i <> j -> array_get (array_set a i v) j = array_get a j.
Proof.
  intros Hi Hne. unfold array_get, array_set.
  destruct (Nat.ltb_spec i (List.length a)); [|lia].
  rewrite list_lookup_insert_ne by assumption. reflexivity.
Qed.

Lemma array_set_length (a : list JS.number) (i : nat) (v : JS.number) :
  (i < List.length a)%nat -> List.length (array_set a i v) = List.length a.
Proof.
  intros Hi. unfold array_set.
  destruct (Nat.ltb_spec i (List.length a)); [|lia]. apply length_insert.
Qed.

Lemma array_set_finite (a : list JS.number) (i : nat) (v : JS.number) :
  (i < List.length a)%nat -> Forall JS.finite a -> JS.finite v ->
  Forall JS.finite (array_set a i v).
Proof.
  intros Hi Ha Hv. unfold array_set.
  destruct (Nat.ltb_spec i (List.length a)); [|lia]. now apply Forall_insert.
Qed.

Lemma array_get_time (a : list JS.number) (i : nat) :
  Forall JS.is_time a -> (i < List.length a)%nat -> JS.is_time (array_get a i).
Proof.
  intros Ha Hi. unfold array_get.
  destruct (lookup_lt_is_Some_2 a i Hi) as [x Hx]. rewrite Hx. simpl.
  exact (Forall_lookup_1 _ _ _ _ Ha Hx).
Qed.

Lemma array_set_time (a : list JS.number) (i : nat) (v : JS.number) :
  (i < List.length a)%nat -> Forall JS.is_time a -> JS.is_time v ->
  Forall JS.is_time (array_set a i v).
Proof.
  intros Hi Ha Hv. unfold array_set.
  destruct (Nat.ltb_spec i (List.length a)); [|lia]. now apply Forall_insert.
Qed.

Lemma finite_times (a : list JS.number) : Forall JS.finite a -> Forall JS.is_time a.
Proof.
  intros H. eapply List.Forall_impl; [| exact H]. exact JSFacts.finite_time.
Qed.

(** The candidate start on a track of finite numbers. *)
Lemma candidate_finite (train : Train.t) (tracksNextFree : list JS.number) (s : Q) :
  Train.scheduledArrival train = JS.Fin s ->
  Forall JS.finite tracksNextFree ->
  forall k, (k < List.length tracksNextFree)%nat ->
    exists f x,
      array_get tracksNextFree k = JS.Fin f /\
      candidate_start train tracksNextFree k = JS.Fin x /\ s <= x /\ f <= x.
Proof.
  intros Hs Hfree k Hk. destruct (array_get_finite _ _ Hfree Hk) as [f Hf].
  unfold candidate_start. rewrite Hs, Hf.
  destruct (JSFacts.max_Fin s f) as (x & Hx & ? & ? & _).
  exists f, x. auto.
Qed.

(** ** The choice of a track *)

Section BestTrack.
Variable train : Train.t.
Variable d : JS.number.
Variable config : RailwayConfig.t.
Variable tracksNextFree : list JS.number.
Variable s : Q.

Hypothesis arrival_finite : Train.scheduledArrival train = JS.Fin s.
Hypothesis free_times : Forall JS.is_time tracksNextFree.

Let n := List.length tracksNextFree.
Let cand := candidate_start train tracksNextFree.
Let ok := feasible train d config tracksNextFree.

Lemma candidate_time (k : nat) :
  (k < n)%nat ->
  JS.is_time (cand k) /\ JS.le (JS.Fin s) (cand k) = true /\
  JS.le (array_get tracksNextFree k) (cand k) = true.
Proof.
  intros Hk. subst cand. unfold candidate_start. rewrite arrival_finite.
  apply JSFacts.max_time. now apply array_get_time.
Qed.

(** A track that starts no later than a feasible one is feasible. *)
Lemma feasible_mono (i j : nat) :
  (i < n)%nat -> JS.le (cand i) (cand j) = true -> ok j -> ok i.
Proof.
  intros Hi Hle Hj. destruct (candidate_time i Hi) as [Hti _].
  exact (JSFacts.add_le_mono _ _ _ _ Hti Hle Hj).
Qed.

Let scan_inv := scan_invariant train d config tracksNextFree.

Lemma scan_track_inv (m : nat) (best : nat * JS.number) :
  (m < n)%nat -> scan_inv m best ->
  scan_inv (S m) (scan_track train d config tracksNextFree best m).
Proof.
  subst scan_inv. unfold scan_invariant. fold cand. fold ok.
  intros Hm [Hstart Hbest]. unfold scan_track. fold cand.
  destruct (candidate_time m Hm) as (Htm & _).
  destruct (JS.le (JS.add (cand m) d) (RailwayConfig.timeHorizon config)) eqn:Hok.
  - assert (Hokm : ok m) by exact Hok.
    assert (Hkn : (fst best < n)%nat)
      by (destruct Hbest as [[-> _] | [? _]]; lia).
    destruct (candidate_time (fst best) Hkn) as (Htk & _).
    rewrite Hstart.
    destruct (JS.lt (cand m) (cand (fst best))) eqn:Hlt.
    + (* track [m] is feasible and starts strictly earlier *)
      split; [reflexivity |]. right. cbn [fst snd].
      split; [lia |]. split; [assumption |].
      assert (Hbelow : forall j, (j < m)%nat -> ok j ->
                JS.lt (cand m) (cand j) = true).
      { intros j Hj Hokj.
        destruct Hbest as [[_ Hnone] | (_ & _ & Hmin & _)].
        - exfalso. exact (Hnone j Hj Hokj).
        - eapply JSFacts.lt_le_trans; [exact Hlt | exact (Hmin j Hj Hokj)]. }
      split; [| exact Hbelow].
      intros j Hj Hokj. destruct (Nat.eq_dec j m) as [-> | Hjm].
      * now apply JSFacts.le_refl_time.
      * apply JSFacts.lt_le, Hbelow; [lia | assumption].
    + (* track [m] is feasible and does not start strictly earlier *)
      pose proof (JSFacts.not_lt_le _ _ Htm Htk Hlt) as Hle.
      split; [assumption |]. right.
      assert (Hokk : ok (fst best)) by exact (feasible_mono _ _ Hkn Hle Hokm).
      split.
      { destruct Hbest as [[Hk Hnone] | (Hk & _)]; [| lia].
        rewrite Hk. destruct (Nat.eq_dec m 0%nat); [lia |].
        exfalso. apply (Hnone 0%nat); [lia |]. now rewrite <- Hk. }
      split; [assumption |]. split.
      * intros j Hj Hokj. destruct (Nat.eq_dec j m) as [-> | Hjm]; [assumption |].
        destruct Hbest as [[_ Hnone] | (_ & _ & Hmin & _)].
        -- exfalso. apply (Hnone j); [lia | assumption].
        -- apply Hmin; [lia | assumption].
      * intros j Hj Hokj.
        destruct Hbest as [[Hk _] | (_ & _ & _ & Htie)]; [lia |].
        now apply Htie.
  - assert (Hnok : ~ ok m).
    { unfold ok, feasible. fold cand. rewrite Hok. discriminate. }
    split; [assumption |].
    destruct Hbest as [[Hk Hnone] | (Hk & Hokk & Hmin & Htie)].
    + left. split; [assumption |]. intros j Hj.
      destruct (Nat.eq_dec j m) as [-> | Hjm]; [assumption | apply Hnone; lia].
    + right. split; [lia |]. split; [assumption |]. split; [| assumption].
      intros j Hj Hokj. destruct (Nat.eq_dec j m) as [-> | Hjm];
        [contradiction | apply Hmin; [lia | assumption]].
Qed.

Lemma scan_tracks_inv (m : nat) :
  (m <= n)%nat ->
  scan_inv m (fold_left (scan_track train d config tracksNextFree) (seq 0 m)
                (0%nat, cand 0%nat)).
Proof.
  induction m as [|m IH]; intros Hm.
  - simpl. split; [reflexivity |]. left. split; [reflexivity |]. intros j Hj. lia.
  - rewrite seq_S, fold_left_app. simpl.
    apply scan_track_inv; [lia | apply IH; lia].
Qed.

(** The loop over the tracks makes the choice of the specification. *)
Lemma best_track_spec :
  (1 <= RailwayConfig.tracks config)%Z ->
  n = Z.to_nat (RailwayConfig.tracks config) ->
  let best := best_track train d config tracksNextFree in
  spec_choice train d config tracksNextFree (fst best) (snd best) /\
  JS.is_time (snd best).
Proof.
  intros Htracks Hn best.
  assert (Hinv : scan_inv n best).
  { subst best. unfold best_track. rewrite <- Hn. apply scan_tracks_inv. lia. }
  subst scan_inv. unfold scan_invariant in Hinv. fold cand in Hinv. fold ok in Hinv.
  destruct Hinv as [Hstart Hbest].
  assert (Hpos : (0 < n)%nat) by lia.
  assert (Hk : (fst best < n)%nat) by (destruct Hbest as [[-> _] | [? _]]; lia).
  split.
  - unfold spec_choice. rewrite <- Hn. fold cand. fold ok.
    split; [assumption |]. split; [assumption |]. split.
    + intros (j & Hj & Hokj).
      destruct Hbest as [[_ Hnone] | (_ & Hokk & Hmin & Htie)].
      * exfalso. exact (Hnone j Hj Hokj).
      * auto.
    + intros Hnone. destruct Hbest as [[H0 _] | (Hlt & Hokk & _)].
      * assumption.
      * exfalso. exact (Hnone _ Hk Hokk).
  - rewrite Hstart. exact (proj1 (candidate_time (fst best) Hk)).
Qed.
End BestTrack.

(** ** The greedy loop *)

Lemma find_train_In (trains : list Train.t) (id : string) (train : Train.t) :
  find_train trains id = Some train -> In train trains /\ Train.id train = id.
Proof.
  intros H. apply find_some in H as [Hin Heq].
  apply String.eqb_eq in Heq. auto.
Qed.

Lemma find_train_known (trains : list Train.t) (train : Train.t) :
  In train trains -> exists train', find_train trains (Train.id train) = Some train'.
Proof.
  intros Hin. destruct (find_train trains (Train.id train)) as [t|] eqn:E; eauto.
  exfalso. apply (find_none _ _ E) in Hin. rewrite String.eqb_refl in Hin. discriminate.
Qed.

Lemma find_train_unique (trains : list Train.t) (train : Train.t) :
  unique_ids trains -> In train trains ->
  find_train trains (Train.id train) = Some train.
Proof.
  unfold unique_ids, find_train.
  induction trains as [|t trains IH]; simpl; intros Hnd Hin; [contradiction |].
  apply NoDup_cons in Hnd as [Hnotin Hnd].
  destruct (String.eqb_spec (Train.id t) (Train.id train)) as [Heq | Hne].
  - destruct Hin as [-> | Hin]; [reflexivity |].
    exfalso. apply Hnotin. rewrite Heq. apply list_elem_of_In. now apply in_map.
  - destruct Hin as [-> | Hin]; [congruence | auto].
Qed.

(** The ids of the assignments are those of the trains with a truthy
    duration, in the order of the loop. *)
Lemma greedy_fold_ids (config : RailwayConfig.t) (sorted : list Train.t) :
  forall st,
    map TrainAssignment.trainId (snd (fold_left (greedy_step config) sorted st)) =
    map TrainAssignment.trainId (snd st) ++
    map Train.id (List.filter has_duration sorted).
Proof.
  induction sorted as [|train sorted IH]; intros st; simpl.
  - now rewrite app_nil_r.
  - rewrite IH. unfold greedy_step, has_duration.
    destruct (Train.duration train) as [d|]; simpl; [|reflexivity].
    destruct (JS.truthy d); simpl; [|reflexivity].
    destruct (best_track train d config (fst st)) as [k start]. simpl.
    rewrite map_app. simpl. now rewrite <- app_assoc.
Qed.

Section GreedyLoop.
Variable config : RailwayConfig.t.
Variable h : Q.

Hypothesis headway_finite : RailwayConfig.safetyHeadway config = JS.Fin h.
Hypothesis tracks_valid : (1 <= RailwayConfig.tracks config)%Z.

Let n := Z.to_nat (RailwayConfig.tracks config).

(** The loop over the sorted trains is a run of the specification. *)
Lemma greedy_fold_spec (sorted : list Train.t) :
  Forall timed_train sorted ->
  forall tracksNextFree acc,
    Forall JS.is_time tracksNextFree ->
    List.length tracksNextFree = n ->
    exists assignments,
      snd (fold_left (greedy_step config) sorted (tracksNextFree, acc)) =
        acc ++ assignments /\
      greedy_spec config tracksNextFree sorted assignments.
Proof.
  induction 1 as [|train sorted [Harr Hdur] Hrest IH]; intros free acc Hfree Hlen;
    cbn [fold_left].
  - exists []. rewrite app_nil_r. split; [reflexivity | constructor].
  - unfold greedy_step at 2. cbn [fst snd].
    destruct (Train.duration train) as [d|] eqn:Hd.
    + destruct (JS.truthy d) eqn:Htruthy; cbn [negb].
      * apply JSFacts.finite_Fin in Harr as [s Hs].
        assert (Hdtime : JS.is_time d)
          by (apply JSFacts.truthy_time; [assumption | congruence]).
        destruct (best_track_spec train d config free s Hs Hfree tracks_valid Hlen)
          as (Hchoice & Hstart).
        destruct (best_track train d config free) as [k start] eqn:Hbest.
        cbn [fst snd] in *.
        assert (Hk : (k < List.length free)%nat)
          by (rewrite Hlen; exact (proj1 Hchoice)).
        destruct (IH (array_set free k
                        (JS.add (JS.add start d) (RailwayConfig.safetyHeadway config)))
                     (acc ++ [TrainAssignment.mk (Train.id train) (Z.of_nat k) start
                                (JS.max JS.zero
                                   (JS.sub start (Train.scheduledArrival train)))]))
          as (rest & Hsnd & Hspec).
        { apply array_set_time; [assumption | assumption |].
          rewrite headway_finite. repeat apply JSFacts.add_time; auto. exact I. }
        { rewrite array_set_length; assumption. }
        eexists. split.
        -- rewrite Hsnd, <- app_assoc. reflexivity.
        -- eapply greedy_spec_assign; eauto.
      * destruct (IH free acc Hfree Hlen) as (rest & Hsnd & Hspec).
        exists rest. split; [assumption |].
        apply greedy_spec_skip; [| assumption].
        rewrite Hd. simpl. assumption.
    + destruct (IH free acc Hfree Hlen) as (rest & Hsnd & Hspec).
      exists rest. split; [assumption |].
      apply greedy_spec_skip; [| assumption].
      rewrite Hd. reflexivity.
Qed.

(** Every assignment of a run of the specification is well formed. *)
Lemma greedy_spec_ok (trains : list Train.t) tracksNextFree sorted assignments :
  greedy_spec config tracksNextFree sorted assignments ->
  Forall finite_train sorted ->
  (forall train, In train sorted -> In train trains) ->
  Forall JS.finite tracksNextFree ->
  List.length tracksNextFree = n ->
  Forall (assignment_ok trains config) assignments.
Proof.
  induction 1 as [free | free train rest asg Hfalsy Hrun IH
                 | free train d rest asg k start Hd Htruthy Hchoice Hrun IH];
    intros Hfin Hsub Hfree Hlen.
  - constructor.
  - apply IH; auto.
    + now apply Forall_inv_tail in Hfin.
    + intros t Ht. apply Hsub. now right.
  - pose proof (Forall_inv Hfin) as [Harr Hdur]. rewrite Hd in Hdur.
    apply JSFacts.finite_Fin in Harr as [s Hs].
    apply JSFacts.finite_Fin in Hdur as [q ->].
    destruct Hchoice as (Hk & Hstart & _). fold n in Hk.
    assert (Hk' : (k < List.length free)%nat) by lia.
    destruct (candidate_finite train free s Hs Hfree k Hk')
      as (f & x & Hf & Hx & Hsx & Hfx).
    rewrite Hx in Hstart. subst start.
    constructor.
    + unfold assignment_ok. simpl. split; [subst n; lia |].
      split; [exact I |]. exists train.
      split; [apply Hsub; now left |]. split; [reflexivity |].
      rewrite Hs. split; [exact I |]. split; [js_order; lra | reflexivity].
    + apply IH.
      * now apply Forall_inv_tail in Hfin.
      * intros t Ht. apply Hsub. now right.
      * apply array_set_finite; [assumption | assumption |].
        rewrite headway_finite. exact I.
      * rewrite array_set_length; assumption.
Qed.
End GreedyLoop.

Lemma js_le_trans (x y z : JS.number) :
  JS.le x y = true -> JS.le y z = true -> JS.le x z = true.
Proof.
  destruct x, y, z; simpl; try congruence.
  rewrite !Qle_bool_iff. lra.
Qed.

(** ** Sorting *)

Section Sorting.
Context {A : Type} (cmp : A -> A -> JS.number).

Lemma sort_insert_perm (x : A) (l : list A) :
  Permutation (sort_insert cmp x l) (x :: l).
Proof.
  induction l as [|y l IH]; cbn [sort_insert]; [reflexivity |].
  destruct (JS.gt (cmp x y) JS.zero); [| reflexivity].
  rewrite IH. apply perm_swap.
Qed.

Lemma array_sort_perm (l : list A) : Permutation (array_sort cmp l) l.
Proof.
  induction l as [|x l IH]; simpl; [reflexivity |].
  rewrite sort_insert_perm. now constructor.
Qed.

Lemma array_sort_In (l : list A) (x : A) : In x (array_sort cmp l) <-> In x l.
Proof.
  split; apply Permutation_in; [| symmetry]; apply array_sort_perm.
Qed.

Lemma array_sort_Forall (P : A -> Prop) (l : list A) :
  Forall P l -> Forall P (array_sort cmp l).
Proof.
  rewrite !List.Forall_forall. intros H x Hx. apply H, array_sort_In, Hx.
Qed.

Let in_order := in_order cmp.

Hypothesis cmp_asym :
  forall x y, JS.gt (cmp x y) JS.zero = true -> JS.gt (cmp y x) JS.zero = false.

Lemma sort_insert_sorted (x : A) (l : list A) :
  Sorted in_order l -> Sorted in_order (sort_insert cmp x l).
Proof.
  induction 1 as [|y l Hl IH Hhd]; cbn [sort_insert].
  - repeat constructor.
  - destruct (JS.gt (cmp x y) JS.zero) eqn:E.
    + constructor; [assumption |].
      destruct l as [|z l]; cbn [sort_insert].
      * constructor. now apply cmp_asym.
      * destruct (JS.gt (cmp x z) JS.zero).
        -- constructor. now inversion Hhd.
        -- constructor. now apply cmp_asym.
    + constructor; [now constructor | now constructor].
Qed.

Lemma array_sort_sorted (l : list A) : Sorted in_order (array_sort cmp l).
Proof.
  induction l as [|x l IH]; simpl; [constructor | now apply sort_insert_sorted].
Qed.
End Sorting.


Lemma computeScheduleMetrics_assignments assignments trains config :
  Schedule.assignments (computeScheduleMetrics assignments trains config) = assignments.
Proof.
  unfold computeScheduleMetrics.
  destruct (metrics_fold trains config assignments
              (Schedule.mk assignments JS.zero JS.zero 0%nat
                 (init_utilization (RailwayConfig.tracks config)))) as [H _].
  exact H.
Qed.

Lemma new_array_fill_valid (config : RailwayConfig.t) :
  (0 <= RailwayConfig.tracks config < 2 ^ 32)%Z ->
  new_array_fill (RailwayConfig.tracks config) JS.zero =
  Some (repeat JS.zero (Z.to_nat (RailwayConfig.tracks config))).
Proof.
  intros [H1 H2]. unfold new_array_fill.
  destruct (Z.leb_spec 0 (RailwayConfig.tracks config)); [| lia].
  destruct (Z.ltb_spec (RailwayConfig.tracks config) (2 ^ 32)); [| lia].
  reflexivity.
Qed.

Lemma repeat_finite (m : nat) : Forall JS.finite (repeat JS.zero m).
Proof. induction m; simpl; constructor; auto. exact I. Qed.

Lemma finite_train_timed (train : Train.t) : finite_train train -> timed_train train.
Proof.
  intros [Harr Hdur]. split; [assumption |].
  intros Hd. rewrite Hd in Hdur. exact Hdur.
Qed.

(** [greedySchedule] unfolded, for a valid track count. *)
Lemma greedySchedule_eq (trains : list Train.t) (config : RailwayConfig.t) :
  (0 <= RailwayConfig.tracks config < 2 ^ 32)%Z ->
  greedySchedule trains config =
  Some (computeScheduleMetrics
          (snd (greedy_loop config (array_sort train_order trains)
                  (repeat JS.zero (Z.to_nat (RailwayConfig.tracks config)))))
          trains config).
Proof.
  intros Hv. unfold greedySchedule. rewrite (new_array_fill_valid config Hv). reflexivity.
Qed.

(** The greedy schedule is a run of the specification from all tracks free
    at minute 0 over the sorted trains. *)
Lemma greedySchedule_run (trains : list Train.t) (config : RailwayConfig.t) :
  valid_tracks config ->
  JS.finite (RailwayConfig.safetyHeadway config) ->
  Forall timed_train trains ->
  exists s,
    greedySchedule trains config = Some s /\
    greedy_spec config (repeat JS.zero (Z.to_nat (RailwayConfig.tracks config)))
      (array_sort train_order trains) (Schedule.assignments s).
Proof.
  intros Hv Hh Hfin. apply JSFacts.finite_Fin in Hh as [h Hh].
  rewrite greedySchedule_eq by (unfold valid_tracks in Hv; lia).
  eexists. split; [reflexivity |].
  rewrite computeScheduleMetrics_assignments. unfold greedy_loop.
  destruct (greedy_fold_spec config h Hh (proj1 Hv) (array_sort train_order trains)
              (array_sort_Forall _ _ _ Hfin)
              (repeat JS.zero (Z.to_nat (RailwayConfig.tracks config))) []
              (finite_times _ (repeat_finite _)) (repeat_length _ _))
    as (asg & -> & Hspec).
  exact Hspec.
Qed.


(** ** Separation on a track *)

Section Separation.
Variable trains : list Train.t.
Variable config : RailwayConfig.t.
Variable h : Q.

Hypothesis headway_finite : RailwayConfig.safetyHeadway config = JS.Fin h.
Hypothesis headway_nonneg : 0 <= h.
Hypothesis ids_unique : unique_ids trains.

Let n := Z.to_nat (RailwayConfig.tracks config).

End Separation.


(** ** Invariants of the local improver *)

Lemma object_assign_same_length {A : Type} (target source : list A) :
  List.length source = List.length target -> object_assign target source = source.
Proof.
  intros Hlen. unfold object_assign.
  rewrite drop_ge by lia. apply app_nil_r.
Qed.

Lemma scan_pairs_cons trains config a1 a2 l st :
  scan_pairs trains config (a1 :: a2 :: l) st =
  try_pair trains config a1 a2 st ≫= scan_pairs trains config (a2 :: l).
Proof. reflexivity. Qed.

Section ImproverInvariant.
Variable trains : list Train.t.
Variable config : RailwayConfig.t.

(** [Inv] is a property of the variables of the improver and [Held] one of
    every assignment that its array has held. *)
Variable Inv : Improver.t -> Prop.
Variable Held : TrainAssignment.t -> Prop.

Hypothesis inv_held : forall st, Inv st -> Forall Held (Improver.assignments st).
Hypothesis inv_flag :
  forall st b,
    Inv st -> Inv (Improver.mk (Improver.assignments st) (Improver.schedule st) b).
Hypothesis inv_pair :
  forall a1 a2 st st',
    Held a1 -> Held a2 -> Inv st ->
    try_pair trains config a1 a2 st = Some st' -> Inv st'.

Lemma scan_pairs_inv (l : list TrainAssignment.t) :
  Forall Held l ->
  forall st st', Inv st -> scan_pairs trains config l st = Some st' -> Inv st'.
Proof.
  induction 1 as [|a1 l Ha1 Hl IH]; intros st st' Hst Hscan.
  - injection Hscan as <-. assumption.
  - destruct l as [|a2 l].
    + injection Hscan as <-. assumption.
    + rewrite scan_pairs_cons in Hscan.
      destruct (try_pair trains config a1 a2 st) as [st1|] eqn:Hpair;
        cbn [mbind option_bind] in Hscan; [| discriminate].
      apply (IH st1 st'); [| exact Hscan].
      exact (inv_pair a1 a2 st st1 Ha1 (Forall_inv Hl) Hst Hpair).
Qed.

Lemma track_assignments_held (st : Improver.t) (trackId : nat) :
  Inv st ->
  Forall Held
    (array_sort arrival_order
       (List.filter (fun a => (TrainAssignment.trackId a =? Z.of_nat trackId)%Z)
          (Improver.assignments st))).
Proof.
  intros Hst. apply array_sort_Forall.
  apply List.Forall_forall. intros a Ha. apply filter_In in Ha as [Ha _].
  pose proof (inv_held st Hst) as H.
  rewrite List.Forall_forall in H. auto.
Qed.

Lemma improve_tracks_inv (trackIds : list nat) :
  forall st st',
    Inv st -> improve_tracks trains config trackIds st = Some st' -> Inv st'.
Proof.
  induction trackIds as [|trackId rest IH]; intros st st' Hst Hrun.
  - injection Hrun as <-. assumption.
  - cbn [improve_tracks] in Hrun.
    destruct (improve_track trains config st trackId) as [st1|] eqn:Htrack;
      cbn [mbind option_bind] in Hrun; [| discriminate].
    apply (IH st1 st'); [| exact Hrun].
    eapply scan_pairs_inv; [| exact Hst | exact Htrack].
    now apply track_assignments_held.
Qed.

Lemma improve_while_inv (fuel : nat) :
  forall st st',
    Inv st -> improve_while fuel trains config st = Some st' -> Inv st'.
Proof.
  induction fuel as [|fuel IH]; intros st st' Hst Hrun.
  - injection Hrun as <-. assumption.
  - cbn [improve_while] in Hrun.
    destruct (improve_tracks trains config
                (seq 0 (Z.to_nat (RailwayConfig.tracks config)))
                (Improver.mk (Improver.assignments st) (Improver.schedule st) false))
      as [st1|] eqn:Hpass; cbn [mbind option_bind] in Hrun; [| discriminate].
    assert (Hst1 : Inv st1).
    { eapply improve_tracks_inv; [| exact Hpass]. now apply inv_flag. }
    destruct (Improver.improved st1).
    + eapply IH; eauto.
    + injection Hrun as <-. assumption.
Qed.

(** What holds of the initial variables holds of the returned schedule's. *)
Lemma applyLocalImprovements_inv (schedule s : Schedule.t) :
  Inv (Improver.mk (Schedule.assignments schedule) schedule true) ->
  applyLocalImprovements schedule trains config = Some s ->
  exists st, Inv st /\ Improver.schedule st = s.
Proof.
  intros Hinit Hrun. unfold applyLocalImprovements in Hrun.
  destruct (improve_while maxIterations trains config
              (Improver.mk (Schedule.assignments schedule) schedule true))
    as [st|] eqn:Hloop; cbn [mbind option_bind] in Hrun; [| discriminate].
  injection Hrun as <-. exists st. split; [| reflexivity].
  eapply improve_while_inv; eauto.
Qed.

(** Termination without an exception. *)

Hypothesis pair_total :
  forall a1 a2 st,
    Held a1 -> Held a2 -> Inv st -> is_Some (try_pair trains config a1 a2 st).

Lemma scan_pairs_total (l : list TrainAssignment.t) :
  Forall Held l ->
  forall st, Inv st -> is_Some (scan_pairs trains config l st).
Proof.
  induction 1 as [|a1 l Ha1 Hl IH]; intros st Hst.
  - eexists; reflexivity.
  - destruct l as [|a2 l].
    + eexists; reflexivity.
    + rewrite scan_pairs_cons.
      destruct (pair_total a1 a2 st Ha1 (Forall_inv Hl) Hst) as [st1 Hpair].
      rewrite Hpair. cbn [mbind option_bind].
      apply IH. exact (inv_pair a1 a2 st st1 Ha1 (Forall_inv Hl) Hst Hpair).
Qed.

Lemma improve_tracks_total (trackIds : list nat) :
  forall st, Inv st -> is_Some (improve_tracks trains config trackIds st).
Proof.
  induction trackIds as [|trackId rest IH]; intros st Hst.
  - eexists; reflexivity.
  - cbn [improve_tracks].
    destruct (scan_pairs_total _ (track_assignments_held st trackId Hst) st Hst)
      as [st1 Htrack].
    unfold improve_track. rewrite Htrack. cbn [mbind option_bind].
    apply IH. eapply scan_pairs_inv; [| exact Hst | exact Htrack].
    now apply track_assignments_held.
Qed.

Lemma improve_while_total (fuel : nat) :
  forall st, Inv st -> is_Some (improve_while fuel trains config st).
Proof.
  induction fuel as [|fuel IH]; intros st Hst.
  - eexists; reflexivity.
  - cbn [improve_while].
    destruct (improve_tracks_total
                (seq 0 (Z.to_nat (RailwayConfig.tracks config)))
                (Improver.mk (Improver.assignments st) (Improver.schedule st) false)
                (inv_flag st false Hst)) as [st1 Hpass].
    rewrite Hpass. cbn [mbind option_bind].
    destruct (Improver.improved st1).
    + apply IH. eapply improve_tracks_inv; [| exact Hpass]. now apply inv_flag.
    + eexists; reflexivity.
Qed.

Lemma applyLocalImprovements_total (schedule : Schedule.t) :
  Inv (Improver.mk (Schedule.assignments schedule) schedule true) ->
  is_Some (applyLocalImprovements schedule trains config).
Proof.
  intros Hinit. unfold applyLocalImprovements.
  destruct (improve_while_total maxIterations _ Hinit) as [st Hloop].
  rewrite Hloop. eexists; reflexivity.
Qed.
End ImproverInvariant.

(** ** One pair of the local improver *)

Lemma trySwapTrains_swapped assignments a1 a2 trains config newAssignments :
  trySwapTrains assignments a1 a2 trains config = Some (Some newAssignments) ->
  exists train1 train2,
    find_train trains (TrainAssignment.trainId a1) = Some train1 /\
    find_train trains (TrainAssignment.trainId a2) = Some train2 /\
    newAssignments =
      map (swap_entry a1 a2 train1 train2
             (JS.max (Train.scheduledArrival train1) (TrainAssignment.actualArrival a2))
             (JS.max (Train.scheduledArrival train2) (TrainAssignment.actualArrival a1)))
          assignments.
Proof.
  unfold trySwapTrains.
  destruct (find_train trains (TrainAssignment.trainId a1)) as [train1|];
    cbn [mbind option_bind]; [| discriminate].
  destruct (find_train trains (TrainAssignment.trainId a2)) as [train2|];
    cbn [mbind option_bind]; [| discriminate].
  destruct (Train.duration train1) as [d1|]; [| discriminate].
  destruct (Train.duration train2) as [d2|]; [| discriminate].
  destruct (negb (JS.truthy d1) || negb (JS.truthy d2)); [discriminate |].
  match goal with |- context [if ?c then _ else _] => destruct c end;
    [discriminate |].
  intros [= <-]. eauto.
Qed.

Lemma trySwapTrains_total assignments a1 a2 trains config :
  known_train trains a1 -> known_train trains a2 ->
  is_Some (trySwapTrains assignments a1 a2 trains config).
Proof.
  intros [train1 H1] [train2 H2]. unfold trySwapTrains.
  rewrite H1, H2. cbn [mbind option_bind].
  destruct (Train.duration train1) as [d1|]; [| eexists; reflexivity].
  destruct (Train.duration train2) as [d2|]; [| eexists; reflexivity].
  destruct (negb (JS.truthy d1) || negb (JS.truthy d2)); [eexists; reflexivity |].
  match goal with |- context [if ?c then _ else _] => destruct c end;
    eexists; reflexivity.
Qed.

Lemma swap_entry_trainId a1 a2 train1 train2 t1 t2 a :
  TrainAssignment.trainId (swap_entry a1 a2 train1 train2 t1 t2 a) =
  TrainAssignment.trainId a.
Proof.
  unfold swap_entry.
  destruct (String.eqb _ _); [reflexivity |].
  destruct (String.eqb _ _); reflexivity.
Qed.

Lemma swap_entries_ids a1 a2 train1 train2 t1 t2 assignments :
  map TrainAssignment.trainId (map (swap_entry a1 a2 train1 train2 t1 t2) assignments) =
  map TrainAssignment.trainId assignments.
Proof.
  rewrite map_map. apply map_ext. intros a. apply swap_entry_trainId.
Qed.

(** A pair either leaves the variables of the improver as they are or
    installs the swapped assignments, whose weighted delay is strictly
    smaller than the current one. *)
Lemma try_pair_cases trains config a1 a2 st st' :
  try_pair trains config a1 a2 st = Some st' ->
  st' = st \/
  exists newAssignments,
    trySwapTrains (Improver.assignments st) a1 a2 trains config =
      Some (Some newAssignments) /\
    JS.lt (Schedule.weightedDelay (computeScheduleMetrics newAssignments trains config))
          (Schedule.weightedDelay (Improver.schedule st)) = true /\
    st' = Improver.mk newAssignments
            (computeScheduleMetrics newAssignments trains config) true.
Proof.
  unfold try_pair.
  destruct (find_train trains (TrainAssignment.trainId a1)) as [train1|];
    cbn [mbind option_bind]; [| discriminate].
  destruct (find_train trains (TrainAssignment.trainId a2)) as [train2|];
    cbn [mbind option_bind]; [| discriminate].
  destruct (JS.gt _ _); [| intros [= <-]; now left].
  destruct (trySwapTrains (Improver.assignments st) a1 a2 trains config)
    as [[newAssignments|]|] eqn:Hswap; cbn [mbind option_bind];
    [| intros [= <-]; now left | discriminate].
  destruct (JS.lt _ _) eqn:Hlt; [| intros [= <-]; now left].
  intros [= <-]. right. exists newAssignments.
  split; [reflexivity |]. split; [assumption |].
  f_equal. apply object_assign_same_length.
  apply trySwapTrains_swapped in Hswap as (t1 & t2 & _ & _ & ->).
  apply length_map.
Qed.

Lemma try_pair_total trains config a1 a2 st :
  known_train trains a1 -> known_train trains a2 ->
  is_Some (try_pair trains config a1 a2 st).
Proof.
  intros H1 H2.
  destruct (trySwapTrains_total (Improver.assignments st) a1 a2 trains config H1 H2)
    as [r Hr].
  destruct H1 as [train1 H1], H2 as [train2 H2]. unfold try_pair.
  rewrite H1, H2. cbn [mbind option_bind].
  destruct (JS.gt _ _); [| eexists; reflexivity].
  rewrite Hr. cbn [mbind option_bind].
  destruct r as [newAssignments|]; [| eexists; reflexivity].
  destruct (JS.lt _ _); eexists; reflexivity.
Qed.

(** ** The improver keeps the ids and terminates normally *)

Section KnownIds.
Variable trains : list Train.t.
Variable config : RailwayConfig.t.
Variable ids : list string.

Lemma known_train_ids (l l' : list TrainAssignment.t) :
  map TrainAssignment.trainId l' = map TrainAssignment.trainId l ->
  Forall (known_train trains) l -> Forall (known_train trains) l'.
Proof.
  revert l'. induction l as [|a l IH]; intros [|a' l'] Hmap Hl;
    try discriminate; constructor.
  - injection Hmap as Ha _. apply Forall_inv in Hl.
    unfold known_train in *. now rewrite Ha.
  - injection Hmap as _ Hmap. apply IH; [assumption |].
    now apply Forall_inv_tail in Hl.
Qed.

Lemma ids_invariant_pair a1 a2 st st' :
  ids_invariant trains ids st ->
  try_pair trains config a1 a2 st = Some st' ->
  ids_invariant trains ids st'.
Proof.
  intros (Hasg & Hsched & Hknown) Hpair.
  apply try_pair_cases in Hpair as [-> | (new & Hswap & _ & ->)].
  - repeat split; assumption.
  - apply trySwapTrains_swapped in Hswap as (t1 & t2 & _ & _ & ->).
    unfold ids_invariant. cbn [Improver.assignments Improver.schedule].
    rewrite computeScheduleMetrics_assignments, swap_entries_ids.
    repeat split; try assumption.
    eapply known_train_ids; [| exact Hknown]. apply swap_entries_ids.
Qed.

Lemma ids_invariant_optimized (schedule : Schedule.t) :
  map TrainAssignment.trainId (Schedule.assignments schedule) = ids ->
  Forall (known_train trains) (Schedule.assignments schedule) ->
  exists s,
    applyLocalImprovements schedule trains config = Some s /\
    map TrainAssignment.trainId (Schedule.assignments s) = ids.
Proof.
  intros Hids Hknown.
  assert (Hinit : ids_invariant trains ids
                    (Improver.mk (Schedule.assignments schedule) schedule true))
    by (repeat split; assumption).
  assert (Hheld : forall st, ids_invariant trains ids st ->
                    Forall (known_train trains) (Improver.assignments st))
    by (intros st (_ & _ & H); exact H).
  assert (Hflag : forall st b, ids_invariant trains ids st ->
                    ids_invariant trains ids
                      (Improver.mk (Improver.assignments st) (Improver.schedule st) b))
    by (intros st b H; exact H).
  assert (Hpair : forall a1 a2 st st',
            known_train trains a1 -> known_train trains a2 ->
            ids_invariant trains ids st ->
            try_pair trains config a1 a2 st = Some st' -> ids_invariant trains ids st')
    by (intros a1 a2 st st' _ _; apply ids_invariant_pair).
  destruct (applyLocalImprovements_total trains config _ _ Hheld Hflag Hpair
              (fun a1 a2 st H1 H2 _ => try_pair_total trains config a1 a2 st H1 H2)
              schedule Hinit) as [s Hs].
  exists s. split; [assumption |].
  destruct (applyLocalImprovements_inv trains config _ _ Hheld Hflag Hpair
              schedule s Hinit Hs) as (st & (_ & H & _) & <-).
  exact H.
Qed.
End KnownIds.

(** ** The optimized schedule returns *)

Lemma greedy_assignments_known (trains : list Train.t) (config : RailwayConfig.t)
    (g : Schedule.t) :
  greedySchedule trains config = Some g ->
  map TrainAssignment.trainId (Schedule.assignments g) =
    map Train.id (List.filter has_duration (array_sort train_order trains)) /\
  Forall (known_train trains) (Schedule.assignments g).
Proof.
  intros Hg. unfold greedySchedule in Hg.
  destruct (new_array_fill (RailwayConfig.tracks config) JS.zero) as [free|];
    cbn [mbind option_bind] in Hg; [| discriminate].
  injection Hg as <-. rewrite computeScheduleMetrics_assignments.
  unfold greedy_loop.
  pose proof (greedy_fold_ids config (array_sort train_order trains) (free, [])) as Hids.
  cbn [snd map app] in Hids. split; [exact Hids |].
  apply List.Forall_forall. intros a Ha.
  apply (in_map TrainAssignment.trainId) in Ha. rewrite Hids in Ha.
  apply in_map_iff in Ha as (train & Hid & Hin).
  apply filter_In in Hin as [Hin _]. apply array_sort_In in Hin.
  unfold known_train. rewrite <- Hid.
  destruct (find_train_known trains train Hin) as [t Ht]. rewrite Ht. eexists; reflexivity.
Qed.

(** With a valid track count both schedulers return, and the optimized
    schedule names the same trains in the same order as the greedy one. *)
Lemma optimizedSchedule_total (trains : list Train.t) (config : RailwayConfig.t) :
  (0 <= RailwayConfig.tracks config < 2 ^ 32)%Z ->
  exists g o,
    greedySchedule trains config = Some g /\
    optimizedSchedule trains config = Some o /\
    map TrainAssignment.trainId (Schedule.assignments o) =
    map TrainAssignment.trainId (Schedule.assignments g).
Proof.
  intros Hv. unfold optimizedSchedule.
  rewrite (greedySchedule_eq trains config Hv). cbn [mbind option_bind].
  set (g := computeScheduleMetrics _ trains config).
  destruct (greedy_assignments_known trains config g (greedySchedule_eq trains config Hv))
    as [_ Hknown].
  destruct (ids_invariant_optimized trains config _ g eq_refl Hknown) as (o & Ho & Hids).
  exists g, o. auto.
Qed.

(** ** The improver never increases the weighted delay *)

Lemma delay_invariant_pair trains config initial a1 a2 st st' :
  delay_invariant initial st ->
  try_pair trains config a1 a2 st = Some st' ->
  delay_invariant initial st'.
Proof.
  intros Hst Hpair.
  apply try_pair_cases in Hpair as [-> | (new & _ & Hlt & ->)]; [assumption |].
  right. cbn [Improver.schedule].
  destruct Hst as [<- | Hst]; [assumption |].
  eapply JSFacts.lt_trans; eauto.
Qed.

(** C5. Whenever [optimizedSchedule] returns a schedule, [greedySchedule]
    returns one too, and the optimized schedule is the greedy one or has a
    strictly smaller weighted delay; so its weighted delay is at most the
    greedy one (for a weighted delay that is a number: [NaN <= NaN] is false
    in JavaScript).  The schedulers return whenever the track count is an
    array length. *)
Theorem optimizedSchedule_weightedDelay :
  forall (trains : list Train.t) (config : RailwayConfig.t),
    (forall o,
       optimizedSchedule trains config = Some o ->
       exists g,
         greedySchedule trains config = Some g /\
         (o = g \/
          JS.lt (Schedule.weightedDelay o) (Schedule.weightedDelay g) = true) /\
         (JS.is_nan (Schedule.weightedDelay g) = false ->
          JS.le (Schedule.weightedDelay o) (Schedule.weightedDelay g) = true)) /\
    ((0 <= RailwayConfig.tracks config < 2 ^ 32)%Z ->
     is_Some (optimizedSchedule trains config)).
Proof.
  intros trains config. split.
  - intros o Ho. unfold optimizedSchedule in Ho.
    destruct (greedySchedule trains config) as [g|];
      cbn [mbind option_bind] in Ho; [| discriminate].
    exists g. split; [reflexivity |].
    assert (Hinv : o = g \/
              JS.lt (Schedule.weightedDelay o) (Schedule.weightedDelay g) = true).
    { destruct (applyLocalImprovements_inv trains config (delay_invariant g)
                  (fun _ => True)
                  (fun st _ => proj2 (List.Forall_forall _ _) (fun _ _ => I))
                  (fun st b H => H)
                  (fun a1 a2 st st' _ _ => delay_invariant_pair trains config g a1 a2 st st')
                  g o (or_introl eq_refl) Ho) as (st & Hst & <-).
      exact Hst. }
    split; [exact Hinv |].
    intros Hnan. destruct Hinv as [-> | Hlt].
    + now apply JSFacts.le_refl.
    + now apply JSFacts.lt_le.
  - intros Hv. destruct (optimizedSchedule_total trains config Hv) as (g & o & _ & Ho & _).
    rewrite Ho. eexists; reflexivity.
Qed.

(** ** The improver keeps assignments well formed *)

Section WellFormed.
Variable trains : list Train.t.
Variable config : RailwayConfig.t.
Hypothesis arrivals_finite :
  Forall (fun train => JS.finite (Train.scheduledArrival train)) trains.

Lemma assignment_ok_known a : assignment_ok trains config a -> known_train trains a.
Proof.
  intros (_ & _ & train & Hin & Hid & _). unfold known_train. rewrite <- Hid.
  destruct (find_train_known trains train Hin) as [t ->]. eexists; reflexivity.
Qed.

(** An entry that takes a new time: the time is the later of the arrival
    of the train found for the entry and the start of the other entry. *)
Lemma retimed_ok (a other : TrainAssignment.t) (train : Train.t) :
  assignment_ok trains config a ->
  assignment_ok trains config other ->
  In train trains -> Train.id train = TrainAssignment.trainId a ->
  let newTime :=
    JS.max (Train.scheduledArrival train) (TrainAssignment.actualArrival other) in
  assignment_ok trains config
    (TrainAssignment.mk (TrainAssignment.trainId a) (TrainAssignment.trackId a) newTime
       (JS.max JS.zero (JS.sub newTime (Train.scheduledArrival train)))).
Proof.
  intros (Htrack & _) (_ & Hother & _) Hin Hid newTime.
  pose proof (proj1 (List.Forall_forall _ _) arrivals_finite train Hin) as Hfin.
  apply JSFacts.finite_Fin in Hfin as [s Hs].
  apply JSFacts.finite_Fin in Hother as [y Hy].
  subst newTime. rewrite Hs, Hy.
  destruct (JSFacts.max_Fin s y) as (z & -> & Hsz & _).
  unfold assignment_ok.
  cbn [TrainAssignment.trainId TrainAssignment.trackId
       TrainAssignment.actualArrival TrainAssignment.delay].
  split; [exact Htrack |]. split; [exact I |].
  exists train. split; [assumption |]. split; [assumption |].
  rewrite Hs. split; [exact I |]. split; [js_order; lra | reflexivity].
Qed.

Lemma swap_entry_ok a1 a2 train1 train2 a :
  find_train trains (TrainAssignment.trainId a1) = Some train1 ->
  find_train trains (TrainAssignment.trainId a2) = Some train2 ->
  assignment_ok trains config a1 ->
  assignment_ok trains config a2 ->
  assignment_ok trains config a ->
  assignment_ok trains config
    (swap_entry a1 a2 train1 train2
       (JS.max (Train.scheduledArrival train1) (TrainAssignment.actualArrival a2))
       (JS.max (Train.scheduledArrival train2) (TrainAssignment.actualArrival a1)) a).
Proof.
  intros Hf1 Hf2 Ha1 Ha2 Ha. unfold swap_entry.
  apply find_train_In in Hf1 as [Hin1 Hid1].
  apply find_train_In in Hf2 as [Hin2 Hid2].
  destruct (String.eqb_spec (TrainAssignment.trainId a) (TrainAssignment.trainId a1))
    as [E1 | _].
  - apply retimed_ok; auto. congruence.
  - destruct (String.eqb_spec (TrainAssignment.trainId a) (TrainAssignment.trainId a2))
      as [E2 | _]; [| assumption].
    apply retimed_ok; auto. congruence.
Qed.

Lemma ok_invariant_pair a1 a2 st st' :
  assignment_ok trains config a1 ->
  assignment_ok trains config a2 ->
  ok_invariant trains config st ->
  try_pair trains config a1 a2 st = Some st' ->
  ok_invariant trains config st'.
Proof.
  intros Ha1 Ha2 [Hasg Hsched] Hpair.
  apply try_pair_cases in Hpair as [-> | (new & Hswap & _ & ->)].
  - split; assumption.
  - apply trySwapTrains_swapped in Hswap as (t1 & t2 & Hf1 & Hf2 & ->).
    unfold ok_invariant. cbn [Improver.assignments Improver.schedule].
    rewrite computeScheduleMetrics_assignments.
    assert (H : Forall (assignment_ok trains config)
                  (map (swap_entry a1 a2 t1 t2
                          (JS.max (Train.scheduledArrival t1)
                             (TrainAssignment.actualArrival a2))
                          (JS.max (Train.scheduledArrival t2)
                             (TrainAssignment.actualArrival a1)))
                       (Improver.assignments st))).
    { apply List.Forall_forall. intros b Hb.
      apply in_map_iff in Hb as (a & <- & Ha).
      apply swap_entry_ok; auto.
      exact (proj1 (List.Forall_forall _ _) Hasg a Ha). }
    split; exact H.
Qed.

(** Well-formed initial assignments stay well formed through the improver,
    which returns normally. *)
Lemma ok_invariant_optimized (schedule : Schedule.t) :
  Forall (assignment_ok trains config) (Schedule.assignments schedule) ->
  exists s,
    applyLocalImprovements schedule trains config = Some s /\
    Forall (assignment_ok trains config) (Schedule.assignments s).
Proof.
  intros Hok.
  assert (Hinit : ok_invariant trains config
                    (Improver.mk (Schedule.assignments schedule) schedule true))
    by (split; assumption).
  assert (Hheld : forall st, ok_invariant trains config st ->
                    Forall (assignment_ok trains config) (Improver.assignments st))
    by (intros st [H _]; exact H).
  assert (Hflag : forall st b, ok_invariant trains config st ->
                    ok_invariant trains config
                      (Improver.mk (Improver.assignments st) (Improver.schedule st) b))
    by (intros st b H; exact H).
  destruct (applyLocalImprovements_total trains config _ _ Hheld Hflag ok_invariant_pair
              (fun a1 a2 st H1 H2 _ =>
                 try_pair_total trains config a1 a2 st
                   (assignment_ok_known a1 H1) (assignment_ok_known a2 H2))
              schedule Hinit) as [s Hs].
  exists s. split; [assumption |].
  destruct (applyLocalImprovements_inv trains config _ _ Hheld Hflag ok_invariant_pair
              schedule s Hinit Hs) as (st & [_ H] & <-).
  exact H.
Qed.
End WellFormed.

(** ** Prepared trains *)

Lemma prepareTrainsData_In (trains : list Train.t) (config : RailwayConfig.t)
    (prepared : Train.t) :
  In prepared (prepareTrainsData trains config) ->
  exists train,
    In train trains /\
    Train.id prepared = Train.id train /\
    Train.scheduledArrival prepared = Train.scheduledArrival train /\
    Train.duration prepared =
      Some (computeTraversalTime (RailwayConfig.sectionLength config) (Train.speed train)).
Proof.
  unfold prepareTrainsData. intros H. apply in_map_iff in H as (train & <- & Hin).
  exists train. auto.
Qed.

Lemma prepareTrainsData_ids (trains : list Train.t) (config : RailwayConfig.t) :
  map Train.id (prepareTrainsData trains config) = map Train.id trains.
Proof.
  unfold prepareTrainsData. rewrite map_map. reflexivity.
Qed.

Lemma computeTraversalTime_finite (sectionKm speedKmh : Q) :
  0 < speedKmh ->
  computeTraversalTime (JS.Fin sectionKm) (JS.Fin speedKmh) =
  JS.Fin (sectionKm / speedKmh * 60).
Proof.
  intros Hv. unfold computeTraversalTime, JS.div.
  replace (Qeq_bool speedKmh 0) with false; [reflexivity |].
  symmetry. apply JSFacts.Qeq_bool_false. lra.
Qed.

Lemma prepared_finite (trains : list Train.t) (config : RailwayConfig.t) :
  JS.finite (RailwayConfig.sectionLength config) ->
  Forall positive_speed trains ->
  Forall finite_train (prepareTrainsData trains config).
Proof.
  intros Hsec Hpos. apply JSFacts.finite_Fin in Hsec as [L HL].
  apply List.Forall_forall. intros p Hp.
  apply prepareTrainsData_In in Hp as (train & Hin & _ & Harr & Hdur).
  destruct (proj1 (List.Forall_forall _ _) Hpos train Hin) as (Hfin & v & Hv & Hvpos).
  split; [now rewrite Harr |].
  rewrite Hdur, HL, Hv, computeTraversalTime_finite by assumption. exact I.
Qed.

(** ** Every assignment is well formed *)

Lemma greedySchedule_ok (trains : list Train.t) (config : RailwayConfig.t) :
  valid_tracks config ->
  JS.finite (RailwayConfig.safetyHeadway config) ->
  Forall finite_train trains ->
  exists g,
    greedySchedule trains config = Some g /\
    Forall (assignment_ok trains config) (Schedule.assignments g).
Proof.
  intros Hv Hh Hfin.
  destruct (greedySchedule_run trains config Hv Hh) as (g & Hg & Hrun).
  { eapply List.Forall_impl; [| exact Hfin]. exact finite_train_timed. }
  exists g. split; [assumption |].
  apply JSFacts.finite_Fin in Hh as [h Hh].
  eapply (greedy_spec_ok config h Hh (proj1 Hv)); eauto.
  - now apply array_sort_Forall.
  - intros train. apply array_sort_In.
  - apply repeat_finite.
  - apply repeat_length.
Qed.

Lemma finite_train_arrival (trains : list Train.t) :
  Forall finite_train trains ->
  Forall (fun train => JS.finite (Train.scheduledArrival train)) trains.
Proof.
  intros H. eapply List.Forall_impl; [| exact H]. intros t [Ht _]. exact Ht.
Qed.

Lemma delay_nonneg (x s : Q) :
  JS.le JS.zero (JS.max JS.zero (JS.sub (JS.Fin x) (JS.Fin s))) = true.
Proof.
  change (JS.sub (JS.Fin x) (JS.Fin s)) with (JS.Fin (x - s)). unfold JS.zero.
  destruct (JSFacts.max_Fin 0 (x - s)) as (z & -> & Hz & _). js_order. lra.
Qed.

(** C6. For a configuration with at least one track and trains whose speed
    is positive, the pipeline ([prepareTrainsData], then [greedySchedule] or
    [optimizedSchedule]) returns schedules in which every assignment has its
    track id in [0, tracks), belongs to a train of the list with that id,
    starts no earlier than that train's scheduled arrival, and has the delay
    [max(0, actualArrival - scheduledArrival)], which is not negative. *)
Theorem schedule_assignments_ok :
  forall (trains : list Train.t) (config : RailwayConfig.t),
    valid_tracks config ->
    JS.finite (RailwayConfig.sectionLength config) ->
    JS.finite (RailwayConfig.safetyHeadway config) ->
    Forall positive_speed trains ->
    exists g o,
      greedySchedule (prepareTrainsData trains config) config = Some g /\
      optimizedSchedule (prepareTrainsData trains config) config = Some o /\
      forall a,
        In a (Schedule.assignments g) \/ In a (Schedule.assignments o) ->
        (0 <= TrainAssignment.trackId a < RailwayConfig.tracks config)%Z /\
        exists train,
          In train trains /\
          Train.id train = TrainAssignment.trainId a /\
          JS.le (Train.scheduledArrival train) (TrainAssignment.actualArrival a) = true /\
          TrainAssignment.delay a =
            JS.max JS.zero
              (JS.sub (TrainAssignment.actualArrival a) (Train.scheduledArrival train)) /\
          JS.le JS.zero (TrainAssignment.delay a) = true.
Proof.
  intros trains config Hv Hsec Hh Hpos.
  pose proof (prepared_finite trains config Hsec Hpos) as Hfin.
  destruct (greedySchedule_ok _ config Hv Hh Hfin) as (g & Hg & Hgok).
  destruct (ok_invariant_optimized _ config (finite_train_arrival _ Hfin) g Hgok)
    as (o & Ho & Hook).
  exists g, o. split; [assumption |]. split.
  { unfold optimizedSchedule. rewrite Hg. exact Ho. }
  intros a Ha.
  assert (Hok : assignment_ok (prepareTrainsData trains config) config a).
  { destruct Ha as [Ha | Ha];
      [exact (proj1 (List.Forall_forall _ _) Hgok a Ha)
      | exact (proj1 (List.Forall_forall _ _) Hook a Ha)]. }
  destruct Hok as (Htrack & Hact & p & Hp & Hid & Hsfin & Hle & Hdelay).
  split; [assumption |].
  apply prepareTrainsData_In in Hp as (train & Hin & Hpid & Hparr & _).
  exists train. rewrite <- Hparr, <- Hpid.
  split; [assumption |]. split; [assumption |]. split; [assumption |].
  split; [assumption |].
  rewrite Hdelay.
  apply JSFacts.finite_Fin in Hact as [x ->].
  apply JSFacts.finite_Fin in Hsfin as [s ->].
  apply delay_nonneg.
Qed.

(** ** No swap is feasible after the greedy assigner *)

Lemma arrival_order_asym (a b : TrainAssignment.t) :
  JS.gt (arrival_order a b) JS.zero = true ->
  JS.gt (arrival_order b a) JS.zero = false.
Proof.
  unfold arrival_order, JS.gt, JS.zero.
  destruct (TrainAssignment.actualArrival a) as [| |x|],
           (TrainAssignment.actualArrival b) as [| |y|]; simpl; try congruence.
  rewrite JSFacts.Qlt_bool_iff, JSFacts.Qlt_bool_false. lra.
Qed.

Lemma truthy_positive (d : Q) : 0 < d -> JS.truthy (JS.Fin d) = true.
Proof.
  intros Hd. simpl. apply negb_true_iff, JSFacts.Qeq_bool_false. lra.
Qed.

Lemma positive_train_finite (train : Train.t) :
  positive_train train -> finite_train train.
Proof.
  intros (Harr & d & Hd & _). split; [assumption |]. rewrite Hd. exact I.
Qed.

Section Settled.
Variable trains : list Train.t.
Variable config : RailwayConfig.t.
Variable h : Q.

Hypothesis headway_finite : RailwayConfig.safetyHeadway config = JS.Fin h.
Hypothesis headway_nonneg : 0 <= h.

(** The feasibility test of [trySwapTrains] fails on a pair in arrival
    order: the first train would start no earlier than the second one
    starts now, and the second one no later than that. *)
Lemma trySwapTrains_blocked assignments a1 a2 :
  settled trains a1 -> settled trains a2 ->
  JS.le (TrainAssignment.actualArrival a1) (TrainAssignment.actualArrival a2) = true ->
  trySwapTrains assignments a1 a2 trains config = Some None.
Proof.
  intros (t1 & x1 & s1 & d1 & Hf1 & Hx1 & Hs1 & Hd1 & Hle1 & Hpos1)
         (t2 & x2 & s2 & d2 & Hf2 & Hx2 & Hs2 & Hd2 & Hle2 & Hpos2) Hord.
  rewrite Hx1, Hx2 in Hord. js_order.
  unfold trySwapTrains. rewrite Hf1, Hf2. cbn [mbind option_bind].
  rewrite Hd1, Hd2, !truthy_positive by assumption. cbn [negb orb].
  rewrite Hs1, Hs2, Hx1, Hx2, headway_finite.
  destruct (JSFacts.max_Fin s1 x2) as (z1 & -> & _ & Hz1 & _).
  destruct (JSFacts.max_Fin s2 x1) as (z2 & -> & _ & _ & Hz2).
  assert (Hgt : JS.gt (JS.add (JS.add (JS.Fin z1) (JS.Fin d1)) (JS.Fin h)) (JS.Fin z2)
                = true).
  { change (JS.lt (JS.Fin z2) (JS.Fin (z1 + d1 + h)) = true). js_order.
    destruct Hz2 as [-> | ->]; lra. }
  rewrite Hgt. reflexivity.
Qed.

Lemma try_pair_settled a1 a2 st :
  settled trains a1 -> settled trains a2 ->
  in_order arrival_order a1 a2 ->
  try_pair trains config a1 a2 st = Some st.
Proof.
  intros H1 H2 Hord.
  assert (Hle : JS.le (TrainAssignment.actualArrival a1)
                      (TrainAssignment.actualArrival a2) = true).
  { destruct H1 as (_ & x1 & _ & _ & _ & Hx1 & _), H2 as (_ & x2 & _ & _ & _ & Hx2 & _).
    unfold in_order, arrival_order in Hord. rewrite Hx1, Hx2 in *.
    change (JS.gt (JS.Fin (x1 - x2)) (JS.Fin 0) = false) in Hord.
    js_order. lra. }
  pose proof (trySwapTrains_blocked (Improver.assignments st) a1 a2 H1 H2 Hle) as Hswap.
  destruct H1 as (t1 & _ & _ & _ & Hf1 & _), H2 as (t2 & _ & _ & _ & Hf2 & _).
  unfold try_pair. rewrite Hf1, Hf2. cbn [mbind option_bind].
  destruct (JS.gt _ _); [| reflexivity].
  rewrite Hswap. reflexivity.
Qed.

Lemma scan_pairs_settled (l : list TrainAssignment.t) (st : Improver.t) :
  Sorted (in_order arrival_order) l ->
  Forall (settled trains) l ->
  scan_pairs trains config l st = Some st.
Proof.
  induction l as [|a1 l IH]; intros Hsorted Hl; [reflexivity |].
  destruct l as [|a2 l]; [reflexivity |].
  rewrite scan_pairs_cons.
  apply Sorted_inv in Hsorted as [Hsorted Hhd]. apply HdRel_inv in Hhd.
  rewrite try_pair_settled; auto.
  - cbn [mbind option_bind]. apply IH; [assumption |]. now apply Forall_inv_tail in Hl.
  - exact (Forall_inv Hl).
  - exact (Forall_inv (Forall_inv_tail Hl)).
Qed.

Lemma improve_tracks_settled (trackIds : list nat) (st : Improver.t) :
  Forall (settled trains) (Improver.assignments st) ->
  improve_tracks trains config trackIds st = Some st.
Proof.
  intros Hst. induction trackIds as [|trackId rest IH]; [reflexivity |].
  cbn [improve_tracks]. unfold improve_track.
  rewrite scan_pairs_settled.
  - cbn [mbind option_bind]. exact IH.
  - apply array_sort_sorted. exact arrival_order_asym.
  - apply array_sort_Forall. apply List.Forall_forall. intros a Ha.
    apply filter_In in Ha as [Ha _].
    exact (proj1 (List.Forall_forall _ _) Hst a Ha).
Qed.

(** On settled assignments the improver returns the schedule it is given. *)
Lemma applyLocalImprovements_settled (schedule : Schedule.t) :
  Forall (settled trains) (Schedule.assignments schedule) ->
  applyLocalImprovements schedule trains config = Some schedule.
Proof.
  intros Hst. unfold applyLocalImprovements, maxIterations.
  cbn [improve_while Improver.assignments Improver.schedule].
  rewrite improve_tracks_settled by exact Hst.
  reflexivity.
Qed.

Hypothesis ids_unique : unique_ids trains.
Hypothesis durations_positive : Forall positive_train trains.

Lemma settled_of_ok (a : TrainAssignment.t) :
  assignment_ok trains config a -> settled trains a.
Proof.
  intros (_ & Hact & train & Hin & Hid & _ & Hle & _).
  destruct (proj1 (List.Forall_forall _ _) durations_positive train Hin)
    as (Harr & d & Hd & Hpos).
  apply JSFacts.finite_Fin in Hact as [x Hx].
  apply JSFacts.finite_Fin in Harr as [s Hs].
  exists train, x, s, d. rewrite <- Hid.
  split; [now apply find_train_unique |].
  rewrite Hx, Hs in Hle. js_order. auto.
Qed.

(** The optimized schedule is the greedy one, which exists when the track
    count is an array length. *)
Lemma optimizedSchedule_greedy :
  (1 <= RailwayConfig.tracks config)%Z ->
  optimizedSchedule trains config = greedySchedule trains config /\
  ((RailwayConfig.tracks config < 2 ^ 32)%Z ->
   exists g,
     greedySchedule trains config = Some g /\
     Forall (assignment_ok trains config) (Schedule.assignments g)).
Proof.
  intros Htracks.
  destruct (Z.lt_ge_cases (RailwayConfig.tracks config) (2 ^ 32)) as [Hlt | Hge].
  - destruct (greedySchedule_ok trains config (conj Htracks Hlt)) as (g & Hg & Hok).
    + rewrite headway_finite. exact I.
    + eapply List.Forall_impl; [| exact durations_positive].
      exact positive_train_finite.
    + split; [| intros _; eauto].
      unfold optimizedSchedule. rewrite Hg. cbn [mbind option_bind].
      apply applyLocalImprovements_settled.
      eapply List.Forall_impl; [| exact Hok]. exact settled_of_ok.
  - split; [| lia].
    unfold optimizedSchedule, greedySchedule, new_array_fill.
    destruct (Z.ltb_spec (RailwayConfig.tracks config) (2 ^ 32)); [lia |].
    rewrite andb_false_r. reflexivity.
Qed.
End Settled.

(** Why ids are taken to be unique, as the data model has them: trains are
    looked up by id, so with two trains "a" the entry of the second one is
    retimed with the arrival of the first, and a swap is accepted. *)
Example duplicate_ids_swap :
  let config := RailwayConfig.mk (JS.Fin 5) (JS.Fin 2000) 2 (JS.Fin 10) (JS.Fin 3) in
  let trains :=
    [Train.mk "a" (JS.Fin 1000) (JS.Fin 300) high (JS.Fin 200) (Some (JS.Fin 1));
     Train.mk "b" (JS.Fin 0) (JS.Fin 300) medium (JS.Fin 200) (Some (JS.Fin 1));
     Train.mk "a" (JS.Fin 0) (JS.Fin 300) low (JS.Fin 200) (Some (JS.Fin 1))] in
  Schedule.assignments <$> greedySchedule trains config =
    Some [TrainAssignment.mk "a" 0 (JS.Fin 1000) (JS.Fin 0);
          TrainAssignment.mk "b" 1 (JS.Fin 0) (JS.Fin 0);
          TrainAssignment.mk "a" 1 (JS.Fin 4) (JS.Fin 4)] /\
  Schedule.assignments <$> optimizedSchedule trains config =
    Some [TrainAssignment.mk "a" 0 (JS.Fin 1000) (JS.Fin 0);
          TrainAssignment.mk "b" 1 (JS.Fin 4) (JS.Fin 4);
          TrainAssignment.mk "a" 1 (JS.Fin 1000) (JS.Fin 0)].
Proof.
  split; vm_compute; reflexivity.
Qed.



(** ** Trains without a duration *)

Lemma optimizedSchedule_ids (trains : list Train.t) (config : RailwayConfig.t)
    (s : Schedule.t) :
  greedySchedule trains config = Some s \/ optimizedSchedule trains config = Some s ->
  map TrainAssignment.trainId (Schedule.assignments s) =
  map Train.id (List.filter has_duration (array_sort train_order trains)).
Proof.
  intros [Hg | Ho].
  - exact (proj1 (greedy_assignments_known trains config s Hg)).
  - unfold optimizedSchedule in Ho.
    destruct (greedySchedule trains config) as [g|] eqn:Hg;
      cbn [mbind option_bind] in Ho; [| discriminate].
    destruct (greedy_assignments_known trains config g Hg) as [Hids Hknown].
    destruct (ids_invariant_optimized trains config _ g eq_refl Hknown) as (o & Ho' & Hsame).
    rewrite Ho in Ho'. injection Ho' as <-. now rewrite Hsame.
Qed.

(** A train without a truthy duration, in a list with unique ids, is named
    by no assignment of either schedule, and an assignment that names it
    leaves the accumulators of the metrics as they are. *)
Lemma no_duration_excluded (trains : list Train.t) (config : RailwayConfig.t)
    (train : Train.t) :
  unique_ids trains -> In train trains -> has_duration train = false ->
  (forall s,
     greedySchedule trains config = Some s \/ optimizedSchedule trains config = Some s ->
     forall a, In a (Schedule.assignments s) ->
       TrainAssignment.trainId a <> Train.id train) /\
  (forall acc a,
     TrainAssignment.trainId a = Train.id train ->
     metrics_step trains config acc a = acc).
Proof.
  intros Hids Hin Hfalsy. split.
  - intros s Hs a Ha Hname.
    apply (in_map TrainAssignment.trainId) in Ha.
    rewrite (optimizedSchedule_ids trains config s Hs) in Ha.
    apply in_map_iff in Ha as (t & Hid & Ht).
    apply filter_In in Ht as [Ht Hdur]. apply array_sort_In in Ht.
    assert (t = train).
    { pose proof (find_train_unique trains t Hids Ht) as H1.
      pose proof (find_train_unique trains train Hids Hin) as H2.
      rewrite Hid, Hname, H2 in H1. now injection H1. }
    subst t. congruence.
  - intros acc a Hname. apply metrics_step_skipped.
    unfold counted_with. rewrite Hname, (find_train_unique trains train Hids Hin).
    unfold has_duration, JS.truthy_opt in Hfalsy.
    destruct (Train.duration train) as [d|]; [| reflexivity].
    now rewrite Hfalsy.
Qed.

(** C3, as the code has it.  In a list with unique ids, a train whose
    prepared duration [(sectionLength / speed) * 60] is falsy, that is [0]
    or [NaN], is named by no assignment of the greedy or of the optimized
    schedule of the prepared trains, and an assignment naming it changes no
    metric. *)
Theorem falsy_duration_excluded :
  forall (trains : list Train.t) (config : RailwayConfig.t) (train : Train.t),
    unique_ids trains ->
    In train trains ->
    JS.truthy (computeTraversalTime (RailwayConfig.sectionLength config)
                 (Train.speed train)) = false ->
    let prepared := prepareTrainsData trains config in
    (forall s,
       greedySchedule prepared config = Some s \/
       optimizedSchedule prepared config = Some s ->
       forall a, In a (Schedule.assignments s) ->
         TrainAssignment.trainId a <> Train.id train) /\
    (forall acc a,
       TrainAssignment.trainId a = Train.id train ->
       metrics_step prepared config acc a = acc).
Proof.
  intros trains config train Hids Hin Hfalsy prepared.
  set (p := Train.mk (Train.id train) (Train.scheduledArrival train)
              (Train.speed train) (Train.priority train) (Train.length train)
              (Some (computeTraversalTime (RailwayConfig.sectionLength config)
                       (Train.speed train)))).
  assert (Hp : In p prepared).
  { subst prepared p. unfold prepareTrainsData.
    apply in_map_iff. exists train. auto. }
  assert (Hpids : unique_ids prepared).
  { unfold unique_ids. subst prepared. now rewrite prepareTrainsData_ids. }
  exact (no_duration_excluded prepared config p Hpids Hp Hfalsy).
Qed.

(** C3, as the specification has it, fails: with a section of 5 km, a train
    of speed -60 has the duration -5 and one of speed 0 the duration
    [Infinity]; both are truthy, both trains are assigned to track 0 by the
    greedy and by the optimized schedule, and both count in the metrics. *)
Lemma nonpositive_speed_scheduled :
  JS.le (Train.speed Examples.reversing) JS.zero = true /\
  JS.le (Train.speed Examples.stopped) JS.zero = true /\
  map Train.duration
    (prepareTrainsData [Examples.reversing; Examples.stopped] Examples.config) =
    [Some (JS.Fin (-300 # 60)); Some JS.PosInf] /\
  Schedule.assignments <$>
    greedySchedule
      (prepareTrainsData [Examples.reversing; Examples.stopped] Examples.config)
      Examples.config =
    Some [TrainAssignment.mk "R" 0 (JS.Fin 0) (JS.Fin 0);
          TrainAssignment.mk "S" 0 (JS.Fin 0) (JS.Fin 0)] /\
  Schedule.assignments <$>
    optimizedSchedule
      (prepareTrainsData [Examples.reversing; Examples.stopped] Examples.config)
      Examples.config =
    Some [TrainAssignment.mk "R" 0 (JS.Fin 0) (JS.Fin 0);
          TrainAssignment.mk "S" 0 (JS.Fin 0) (JS.Fin 0)] /\
  (Schedule.utilization <$>
     greedySchedule
       (prepareTrainsData [Examples.reversing; Examples.stopped] Examples.config)
       Examples.config) ≫= (.!! 0%Z) = Some JS.PosInf.
Proof.
  repeat split; vm_compute; reflexivity.
Qed.

(** ** The theorems at concrete inputs *)




Lemma optimizedSchedule_weightedDelay_witness :
  exists g o,
    greedySchedule [Examples.trainB; Examples.trainA] Examples.config = Some g /\
    optimizedSchedule [Examples.trainB; Examples.trainA] Examples.config = Some o /\
    (o = g \/ JS.lt (Schedule.weightedDelay o) (Schedule.weightedDelay g) = true).
Proof.
  destruct (optimizedSchedule_weightedDelay [Examples.trainB; Examples.trainA]
              Examples.config) as [Hle Hsome].
  destruct Hsome as [o Ho]; [simpl; lia |].
  destruct (Hle o Ho) as (g & Hg & Hcase & _).
  exists g, o. auto.
Defined.

Lemma schedule_assignments_ok_witness :
  exists g o,
    greedySchedule
      (prepareTrainsData [Examples.T1; Examples.T2; Examples.T3] Examples.default_config)
      Examples.default_config = Some g /\
    optimizedSchedule
      (prepareTrainsData [Examples.T1; Examples.T2; Examples.T3] Examples.default_config)
      Examples.default_config = Some o /\
    Forall (fun a => (0 <= TrainAssignment.trackId a < 3)%Z /\
                     JS.le JS.zero (TrainAssignment.delay a) = true)
           (Schedule.assignments o).
Proof.
  destruct (schedule_assignments_ok [Examples.T1; Examples.T2; Examples.T3]
              Examples.default_config) as (g & o & Hg & Ho & Hok).
  - unfold valid_tracks. simpl. lia.
  - exact I.
  - exact I.
  - repeat constructor;
      [exists 60 | exists 40 | exists 80]; split; try reflexivity; lra.
  - exists g, o. split; [exact Hg |]. split; [exact Ho |].
    apply List.Forall_forall. intros a Ha.
    destruct (Hok a (or_intror Ha)) as (Htrack & _ & _ & _ & _ & _ & Hdelay).
    split; [exact Htrack | exact Hdelay].
Defined.

Lemma rescheduleWithDisruption_block_track_witness :
  applyDisruption [Examples.T1; Examples.T2; Examples.T3] Examples.block_0 =
    [Examples.T1; Examples.T2; Examples.T3] /\
  RailwayConfig.tracks (modifiedConfig Examples.default_config Examples.block_0) = 2%Z /\
  rescheduleWithDisruption [Examples.T1; Examples.T2; Examples.T3]
    Examples.default_config Examples.block_2 =
  rescheduleWithDisruption [Examples.T1; Examples.T2; Examples.T3]
    Examples.default_config Examples.block_0.
Proof.
  destruct (rescheduleWithDisruption_block_track
              [Examples.T1; Examples.T2; Examples.T3] Examples.default_config
              Examples.block_0 0%Z eq_refl eq_refl) as (Htrains & Hconfig & _ & Hany).
  split; [exact Htrains |]. split; [rewrite Hconfig; reflexivity |].
  exact (Hany Examples.block_2 2%Z eq_refl eq_refl).
Defined.

Lemma falsy_duration_excluded_witness :
  exists s,
    greedySchedule
      (prepareTrainsData [Examples.T1; Examples.T2] Examples.flat_config)
      Examples.flat_config = Some s /\
    ~ In "T1"%string (map TrainAssignment.trainId (Schedule.assignments s)).
Proof.
  destruct (falsy_duration_excluded [Examples.T1; Examples.T2] Examples.flat_config
              Examples.T1) as [Hnone _].
  - unfold unique_ids. apply (bool_decide_unpack _). vm_compute. exact I.
  - simpl. auto.
  - reflexivity.
  - eexists. split; [reflexivity |].
    intros Hin. apply in_map_iff in Hin as (a & Hid & Ha).
    exact (Hnone _ (or_introl eq_refl) a Ha Hid).
Defined.

(** * Further properties of the code *)

(** ** Durations *)


(** X2. [prepareTrainsData] overwrites the duration and nothing else: the
    result has the ids of the input in the same order, and preparing prepared
    trains with another configuration is preparing the trains with that
    configuration; in particular preparing twice is preparing once. *)
Theorem prepareTrainsData_again :
  forall (trains : list Train.t) (config config' : RailwayConfig.t),
    prepareTrainsData (prepareTrainsData trains config) config' =
      prepareTrainsData trains config' /\
    map Train.id (prepareTrainsData trains config) = map Train.id trains /\
    map Train.scheduledArrival (prepareTrainsData trains config) =
      map Train.scheduledArrival trains.
Proof.
  intros trains config config'. unfold prepareTrainsData.
  rewrite !map_map. auto.
Qed.

(** ** Exceptions *)





(** ** Schedules without assignments *)

Lemma improve_tracks_empty trains config (trackIds : list nat) (s : Schedule.t) (b : bool) :
  improve_tracks trains config trackIds (Improver.mk [] s b) = Some (Improver.mk [] s b).
Proof.
  induction trackIds as [|trackId rest IH]; [reflexivity |].
  cbn [improve_tracks]. unfold improve_track. cbn. exact IH.
Qed.

Lemma applyLocalImprovements_empty trains config (s : Schedule.t) :
  Schedule.assignments s = [] -> applyLocalImprovements s trains config = Some s.
Proof.
  intros Hs. unfold applyLocalImprovements, maxIterations.
  cbn [improve_while Improver.assignments Improver.schedule]. rewrite Hs.
  rewrite improve_tracks_empty. reflexivity.
Qed.

Lemma filter_none {A : Type} (f : A -> bool) (l : list A) :
  (forall x, In x l -> f x = false) -> List.filter f l = [].
Proof.
  induction l as [|x l IH]; intros H; [reflexivity |].
  cbn [List.filter]. rewrite (H x (or_introl eq_refl)).
  apply IH. intros y Hy. apply H. now right.
Qed.

(** X5. When no train has a truthy duration (the list is empty, or the
    trains were not passed through [prepareTrainsData]), the greedy and the
    optimized schedule are the schedule without assignments: no delay, no
    finished train, and the initial utilization of every track. *)
Theorem schedule_without_durations :
  forall (trains : list Train.t) (config : RailwayConfig.t),
    (0 <= RailwayConfig.tracks config < 2 ^ 32)%Z ->
    (forall train, In train trains -> has_duration train = false) ->
    greedySchedule trains config = Some (empty_schedule config) /\
    optimizedSchedule trains config = Some (empty_schedule config).
Proof.
  intros trains config Hv Hnone.
  assert (Hg : greedySchedule trains config = Some (empty_schedule config)).
  { rewrite (greedySchedule_eq trains config Hv). f_equal.
    set (asg := snd (greedy_loop config _ _)).
    assert (Hasg : asg = []).
    { apply (map_eq_nil TrainAssignment.trainId).
      subst asg. unfold greedy_loop. rewrite greedy_fold_ids. cbn [snd map app].
      rewrite filter_none; [reflexivity |].
      intros train Hin. apply Hnone. now apply array_sort_In in Hin. }
    rewrite Hasg. reflexivity. }
  split; [exact Hg |].
  unfold optimizedSchedule. rewrite Hg. cbn [mbind option_bind].
  now apply applyLocalImprovements_empty.
Qed.

(** ** What the improver keeps *)

Lemma all_held (l : list TrainAssignment.t) : Forall (fun _ => True) l.
Proof. apply List.Forall_forall. auto. Qed.

Lemma schedules_consistent (trains : list Train.t) (config : RailwayConfig.t)
    (s : Schedule.t) :
  greedySchedule trains config = Some s \/ optimizedSchedule trains config = Some s ->
  s = computeScheduleMetrics (Schedule.assignments s) trains config.
Proof.
  intros Hs.
  assert (Hgreedy : forall g, greedySchedule trains config = Some g ->
            consistent trains config g).
  { intros g Hg. unfold greedySchedule in Hg.
    destruct (new_array_fill (RailwayConfig.tracks config) JS.zero) as [free|];
      cbn [mbind option_bind] in Hg; [| discriminate].
    injection Hg as <-. unfold consistent.
    now rewrite computeScheduleMetrics_assignments. }
  destruct Hs as [Hg | Ho]; [exact (Hgreedy s Hg) |].
  unfold optimizedSchedule in Ho.
  destruct (greedySchedule trains config) as [g|] eqn:Hg;
    cbn [mbind option_bind] in Ho; [| discriminate].
  destruct (applyLocalImprovements_inv trains config
              (consistent_invariant trains config) (fun _ => True)
              (fun st _ => all_held _) (fun st b H => H)) with (schedule := g) (s := s)
    as (st & Hst & <-); auto.
  - intros a1 a2 st st' _ _ Hst Hpair.
    apply try_pair_cases in Hpair as [-> | (new & _ & _ & ->)]; [assumption |].
    unfold consistent_invariant, consistent. cbn [Improver.schedule].
    now rewrite computeScheduleMetrics_assignments.
  - exact (Hgreedy g eq_refl).
Qed.

(** X6. The aggregates of every schedule that [greedySchedule] or
    [optimizedSchedule] returns are the metrics of its own assignments:
    recomputing them with [computeScheduleMetrics] gives the schedule back,
    also after accepted swaps. *)
Theorem schedule_consistent :
  forall (trains : list Train.t) (config : RailwayConfig.t) (s : Schedule.t),
    greedySchedule trains config = Some s \/ optimizedSchedule trains config = Some s ->
    s = computeScheduleMetrics (Schedule.assignments s) trains config.
Proof.
  exact schedules_consistent.
Qed.

Lemma swap_entries_placement a1 a2 train1 train2 t1 t2 assignments :
  map placement (map (swap_entry a1 a2 train1 train2 t1 t2) assignments) =
  map placement assignments.
Proof.
  rewrite map_map. apply map_ext. intros a. unfold swap_entry, placement.
  destruct (String.eqb _ _); [reflexivity |].
  destruct (String.eqb _ _); reflexivity.
Qed.

Lemma optimized_placements (trains : list Train.t) (config : RailwayConfig.t)
    (o : Schedule.t) :
  optimizedSchedule trains config = Some o ->
  exists g,
    greedySchedule trains config = Some g /\
    map placement (Schedule.assignments o) = map placement (Schedule.assignments g).
Proof.
  intros Ho. unfold optimizedSchedule in Ho.
  destruct (greedySchedule trains config) as [g|];
    cbn [mbind option_bind] in Ho; [| discriminate].
  exists g. split; [reflexivity |].
  destruct (applyLocalImprovements_inv trains config
              (placement_invariant (map placement (Schedule.assignments g)))
              (fun _ => True)
              (fun st _ => all_held _) (fun st b H => H)) with (schedule := g) (s := o)
    as (st & [_ Hst] & <-); auto.
  - intros a1 a2 st st' _ _ [H1 H2] Hpair.
    apply try_pair_cases in Hpair as [-> | (new & Hswap & _ & ->)]; [now split |].
    apply trySwapTrains_swapped in Hswap as (t1 & t2 & _ & _ & ->).
    unfold placement_invariant. cbn [Improver.assignments Improver.schedule].
    rewrite computeScheduleMetrics_assignments, swap_entries_placement. auto.
  - split; reflexivity.
Qed.

(** X7. The improver never moves a train to another track and never
    reorders the assignments: the optimized schedule lists the same trains on
    the same tracks, in the same order, as the greedy schedule; only arrival
    times and delays can differ. *)
Theorem optimizedSchedule_keeps_placements :
  forall (trains : list Train.t) (config : RailwayConfig.t) (o : Schedule.t),
    optimizedSchedule trains config = Some o ->
    exists g,
      greedySchedule trains config = Some g /\
      map placement (Schedule.assignments o) = map placement (Schedule.assignments g).
Proof.
  exact optimized_placements.
Qed.

(** ** Track ids, whatever the numbers *)

Lemma scan_track_index train d config free best trackId :
  fst (scan_track train d config free best trackId) = fst best \/
  fst (scan_track train d config free best trackId) = trackId.
Proof.
  unfold scan_track.
  destruct (JS.le _ _); [| now left].
  destruct (JS.lt _ _); [now right | now left].
Qed.

Lemma best_track_index train d config free :
  fst (best_track train d config free) = 0%nat \/
  (fst (best_track train d config free) < Z.to_nat (RailwayConfig.tracks config))%nat.
Proof.
  unfold best_track.
  set (n := Z.to_nat (RailwayConfig.tracks config)).
  assert (H : forall l init,
            (forall k, In k l -> (k < n)%nat) ->
            fst init = 0%nat \/ (fst init < n)%nat ->
            fst (fold_left (scan_track train d config free) l init) = 0%nat \/
            (fst (fold_left (scan_track train d config free) l init) < n)%nat).
  { induction l as [|k l IH]; intros init Hl Hinit; [exact Hinit |].
    cbn [fold_left]. apply IH.
    - intros j Hj. apply Hl. now right.
    - destruct (scan_track_index train d config free init k) as [-> | ->];
        [exact Hinit |].
      right. apply Hl. now left. }
  apply H.
  - intros k Hk. apply in_seq in Hk. lia.
  - now left.
Qed.

Lemma greedy_fold_tracks (config : RailwayConfig.t) (sorted : list Train.t) :
  forall st,
    Forall (fun a => (0 <= TrainAssignment.trackId a
                      < Z.max 1 (RailwayConfig.tracks config))%Z) (snd st) ->
    Forall (fun a => (0 <= TrainAssignment.trackId a
                      < Z.max 1 (RailwayConfig.tracks config))%Z)
      (snd (fold_left (greedy_step config) sorted st)).
Proof.
  induction sorted as [|train sorted IH]; intros st Hst; [exact Hst |].
  cbn [fold_left]. apply IH. unfold greedy_step.
  destruct (Train.duration train) as [d|]; [| exact Hst].
  destruct (JS.truthy d); cbn [negb]; [| exact Hst].
  pose proof (best_track_index train d config (fst st)) as Hk.
  destruct (best_track train d config (fst st)) as [k start]. cbn [fst snd] in *.
  apply Forall_app. split; [exact Hst |].
  constructor; [| constructor]. cbn [TrainAssignment.trackId]. lia.
Qed.

Lemma schedules_track_bound (trains : list Train.t) (config : RailwayConfig.t)
    (s : Schedule.t) :
  greedySchedule trains config = Some s \/ optimizedSchedule trains config = Some s ->
  forall a, In a (Schedule.assignments s) ->
    (0 <= TrainAssignment.trackId a < Z.max 1 (RailwayConfig.tracks config))%Z.
Proof.
  intros Hs.
  assert (Hgreedy : forall g, greedySchedule trains config = Some g ->
            forall a, In a (Schedule.assignments g) ->
              (0 <= TrainAssignment.trackId a
               < Z.max 1 (RailwayConfig.tracks config))%Z).
  { intros g Hg a Ha. unfold greedySchedule in Hg.
    destruct (new_array_fill (RailwayConfig.tracks config) JS.zero) as [free|];
      cbn [mbind option_bind] in Hg; [| discriminate].
    injection Hg as <-. rewrite computeScheduleMetrics_assignments in Ha.
    pose proof (greedy_fold_tracks config (array_sort train_order trains) (free, [])
                  (List.Forall_nil _)) as H.
    rewrite List.Forall_forall in H. exact (H a Ha). }
  destruct Hs as [Hg | Ho]; [exact (Hgreedy s Hg) |].
  destruct (optimized_placements trains config s Ho)
    as (g & Hg & Hmap).
  intros a Ha.
  apply (in_map placement) in Ha. rewrite Hmap in Ha.
  apply in_map_iff in Ha as (b & Hb & Hin).
  injection Hb as _ <-. exact (Hgreedy g Hg b Hin).
Qed.

(** X8. With at least one track, every assignment of the greedy and of the
    optimized schedule is on an existing track, [0 <= trackId < tracks], for
    all trains and all numbers in the configuration, [NaN] and infinities
    included. *)
Theorem trackId_in_range :
  forall (trains : list Train.t) (config : RailwayConfig.t) (s : Schedule.t),
    (1 <= RailwayConfig.tracks config)%Z ->
    greedySchedule trains config = Some s \/ optimizedSchedule trains config = Some s ->
    forall a, In a (Schedule.assignments s) ->
      (0 <= TrainAssignment.trackId a < RailwayConfig.tracks config)%Z.
Proof.
  intros trains config s Htracks Hs a Ha.
  pose proof (schedules_track_bound trains config s Hs a Ha). lia.
Qed.

(** ** No track at all *)






(** ** The order of the greedy assigner *)

Lemma sub_asym (x y : JS.number) :
  JS.gt (JS.sub x y) JS.zero = true -> JS.gt (JS.sub y x) JS.zero = false.
Proof.
  unfold JS.gt, JS.zero.
  destruct x as [| |x|], y as [| |y|]; simpl; try congruence.
  rewrite JSFacts.Qlt_bool_iff, JSFacts.Qlt_bool_false. lra.
Qed.

(** The comparator of the train sort, by cases. *)
Lemma train_order_equal (a b : Train.t) :
  Train.priority a = Train.priority b ->
  train_order a b = JS.sub (Train.scheduledArrival a) (Train.scheduledArrival b).
Proof.
  unfold train_order. intros ->. destruct (Train.priority b); reflexivity.
Qed.

Lemma train_order_differ (a b : Train.t) :
  Train.priority a <> Train.priority b ->
  train_order a b =
  JS.sub (PRIORITY_WEIGHTS (Train.priority b)) (PRIORITY_WEIGHTS (Train.priority a)).
Proof.
  unfold train_order.
  destruct (Train.priority a), (Train.priority b); intros H;
    try contradiction; reflexivity.
Qed.

Lemma train_order_asym (a b : Train.t) :
  JS.gt (train_order a b) JS.zero = true -> JS.gt (train_order b a) JS.zero = false.
Proof.
  destruct (Train.priority a) eqn:Ea, (Train.priority b) eqn:Eb;
    try (rewrite (train_order_equal a b), (train_order_equal b a) by congruence;
         apply sub_asym);
    rewrite (train_order_differ a b), (train_order_differ b a) by congruence;
    rewrite Ea, Eb; vm_compute; congruence.
Qed.

Lemma in_order_train_before (a b : Train.t) :
  JS.finite (Train.scheduledArrival a) -> JS.finite (Train.scheduledArrival b) ->
  in_order train_order a b -> train_before a b.
Proof.
  intros Ha Hb. apply JSFacts.finite_Fin in Ha as [x Hx].
  apply JSFacts.finite_Fin in Hb as [y Hy].
  unfold in_order, train_before.
  destruct (Train.priority a) eqn:Ea, (Train.priority b) eqn:Eb;
    try (rewrite (train_order_equal a b) by congruence; rewrite Hx, Hy;
         intros H; right; split; [reflexivity |];
         change (JS.gt (JS.Fin (x - y)) (JS.Fin 0) = false) in H;
         js_order; lra);
    rewrite (train_order_differ a b) by congruence; rewrite Ea, Eb;
    vm_compute; intros H; try congruence; left; reflexivity.
Qed.

Lemma train_before_trans : Transitive train_before.
Proof.
  intros a b c [Hab | [Eab Hab]] [Hbc | [Ebc Hbc]].
  - left. eapply JSFacts.lt_trans; eauto.
  - left. now rewrite <- Ebc.
  - left. now rewrite Eab.
  - right. split; [congruence |]. eapply js_le_trans; eauto.
Qed.

Lemma Sorted_Forall_impl {A : Type} (R R' : A -> A -> Prop) (P : A -> Prop) (l : list A) :
  (forall a b, P a -> P b -> R a b -> R' a b) ->
  Forall P l -> Sorted R l -> Sorted R' l.
Proof.
  intros Himpl HP Hsorted. induction Hsorted as [|a l Hl IH Hhd]; [constructor |].
  constructor.
  - apply IH. now apply Forall_inv_tail in HP.
  - destruct Hhd as [|b l Hab]; constructor.
    apply Himpl; [exact (Forall_inv HP) | exact (Forall_inv (Forall_inv_tail HP)) | exact Hab].
Qed.

(** X10. For trains with finite scheduled arrivals, the list that
    [greedySchedule] works through is a rearrangement of the trains in which
    every train comes before all trains of a lower priority weight and
    before all trains of its own priority that are scheduled later. *)
Theorem greedy_processing_order :
  forall (trains : list Train.t),
    Forall (fun train => JS.finite (Train.scheduledArrival train)) trains ->
    Permutation (array_sort train_order trains) trains /\
    StronglySorted train_before (array_sort train_order trains).
Proof.
  intros trains Hfin. split; [apply array_sort_perm |].
  apply (Sorted_StronglySorted train_before_trans).
  apply (Sorted_Forall_impl (in_order train_order) train_before
           (fun train => JS.finite (Train.scheduledArrival train))).
  - exact in_order_train_before.
  - now apply array_sort_Forall.
  - apply array_sort_sorted. exact train_order_asym.
Qed.

(** ** Bounds on the metrics *)



Lemma counted_length (trains : list Train.t) (l : list TrainAssignment.t) :
  (List.length (counted trains l) <= List.length l)%nat.
Proof.
  induction l as [|a l IH]; cbn [counted List.length]; [lia |].
  destruct (counted_with trains a) as [[train d]|]; cbn [List.length]; lia.
Qed.

(** X12. [computeScheduleMetrics] never reports more finished trains than it
    is given assignments, and none for an assignment whose train is unknown
    or has no truthy duration. *)
Theorem metrics_finished_bound :
  forall (assignments : list TrainAssignment.t) (trains : list Train.t)
         (config : RailwayConfig.t),
    (Schedule.finished (computeScheduleMetrics assignments trains config)
     <= List.length (counted trains assignments))%nat /\
    (List.length (counted trains assignments) <= List.length assignments)%nat.
Proof.
  intros assignments trains config. split; [| apply counted_length].
  unfold computeScheduleMetrics.
  destruct (metrics_fold trains config assignments
              (Schedule.mk assignments JS.zero JS.zero 0%nat
                 (init_utilization (RailwayConfig.tracks config))))
    as (_ & _ & _ & Hf & _).
  rewrite Hf. cbn [Schedule.finished]. rewrite Nat.add_0_r. apply filter_length_le.
Qed.

Lemma fold_add_nan (l : list JS.number) : fold_left JS.add l JS.NaN = JS.NaN.
Proof. induction l as [|x l IH]; [reflexivity |]. cbn [fold_left]. exact IH. Qed.

Lemma metrics_fold_missing trains config (k : Z) (l : list TrainAssignment.t) :
  forall acc,
    Schedule.utilization acc !! k = None ->
    Schedule.utilization (fold_left (metrics_step trains config) l acc) !! k =
    match List.filter (on_track k) (counted trains l) with
    | [] => None
    | _ :: _ => Some JS.NaN
    end.
Proof.
  induction l as [|a l IH]; intros acc Hk; cbn [fold_left counted]; [exact Hk |].
  destruct (counted_with trains a) as [[train d]|] eqn:E.
  - rewrite (metrics_step_counted trains config acc a train d E).
    cbn [List.filter]. unfold on_track at 1. cbn [fst].
    destruct (Z.eqb_spec (TrainAssignment.trackId a) k) as [Heq | Hne].
    + subst k.
      destruct (metrics_fold trains config l
                  (Schedule.mk (Schedule.assignments acc)
                     (JS.add (Schedule.totalDelay acc) (TrainAssignment.delay a))
                     (JS.add (Schedule.weightedDelay acc)
                        (JS.mul (TrainAssignment.delay a)
                           (PRIORITY_WEIGHTS (Train.priority train))))
                     (if ends_within config (a, train, d)
                      then S (Schedule.finished acc) else Schedule.finished acc)
                     (<[TrainAssignment.trackId a :=
                          JS.add (JS.to_number
                                    (Schedule.utilization acc !! TrainAssignment.trackId a)) d]>
                        (Schedule.utilization acc))))
        as (_ & _ & _ & _ & Hu).
      rewrite (Hu _ JS.NaN).
      * now rewrite fold_add_nan.
      * cbn [Schedule.utilization]. rewrite lookup_insert_eq, Hk. reflexivity.
    + apply IH. cbn [Schedule.utilization]. now rewrite lookup_insert_ne.
  - rewrite (metrics_step_skipped trains config acc a E). now apply IH.
Qed.

(** X13. Outside the track ids [0 .. tracks-1] the utilization has no entry,
    except for a track id that a counted assignment names: the entry of such
    a track is [NaN], since the duration is added to [undefined]. *)
Theorem utilization_out_of_range :
  forall (assignments : list TrainAssignment.t) (trains : list Train.t)
         (config : RailwayConfig.t) (k : Z),
    ~ (0 <= k < RailwayConfig.tracks config)%Z ->
    Schedule.utilization (computeScheduleMetrics assignments trains config) !! k =
    match List.filter (on_track k) (counted trains assignments) with
    | [] => None
    | _ :: _ => Some JS.NaN
    end.
Proof.
  intros assignments trains config k Hk. unfold computeScheduleMetrics.
  apply metrics_fold_missing. cbn [Schedule.utilization]. unfold init_utilization.
  rewrite init_utilization_lookup. case_decide; [| reflexivity].
  exfalso. apply Hk. lia.
Qed.

(** The schedules of the pipeline for positive speeds: both exist and their
    assignments are well formed with respect to the prepared trains. *)
Lemma pipeline_ok (trains : list Train.t) (config : RailwayConfig.t) :
  valid_tracks config ->
  JS.finite (RailwayConfig.sectionLength config) ->
  JS.finite (RailwayConfig.safetyHeadway config) ->
  Forall positive_speed trains ->
  exists g o,
    greedySchedule (prepareTrainsData trains config) config = Some g /\
    optimizedSchedule (prepareTrainsData trains config) config = Some o /\
    Forall (assignment_ok (prepareTrainsData trains config) config)
      (Schedule.assignments g) /\
    Forall (assignment_ok (prepareTrainsData trains config) config)
      (Schedule.assignments o).
Proof.
  intros Hv Hsec Hh Hpos.
  pose proof (prepared_finite trains config Hsec Hpos) as Hfin.
  destruct (greedySchedule_ok _ config Hv Hh Hfin) as (g & Hg & Hgok).
  destruct (ok_invariant_optimized _ config (finite_train_arrival _ Hfin) g Hgok)
    as (o & Ho & Hook).
  exists g, o. split; [assumption |]. split; [| split; assumption].
  unfold optimizedSchedule. rewrite Hg. exact Ho.
Qed.



(** ** [trySwapTrains] *)

(** X15. When [trySwapTrains] returns assignments, they are as many as it
    was given, position by position for the same train on the same track,
    and every entry of a train other than the two given ones is returned as
    it is. *)
Theorem trySwapTrains_frame :
  forall (assignments : list TrainAssignment.t) (a1 a2 : TrainAssignment.t)
         (trains : list Train.t) (config : RailwayConfig.t)
         (newAssignments : list TrainAssignment.t),
    trySwapTrains assignments a1 a2 trains config = Some (Some newAssignments) ->
    List.length newAssignments = List.length assignments /\
    forall (i : nat) (a : TrainAssignment.t),
      assignments !! i = Some a ->
      exists a',
        newAssignments !! i = Some a' /\
        TrainAssignment.trainId a' = TrainAssignment.trainId a /\
        TrainAssignment.trackId a' = TrainAssignment.trackId a /\
        (TrainAssignment.trainId a <> TrainAssignment.trainId a1 ->
         TrainAssignment.trainId a <> TrainAssignment.trainId a2 ->
         a' = a).
Proof.
  intros assignments a1 a2 trains config new Hswap.
  apply trySwapTrains_swapped in Hswap as (t1 & t2 & _ & _ & ->).
  split; [apply length_map |].
  intros i a Hi. rewrite lookup_map, Hi. eexists. split; [reflexivity |].
  unfold swap_entry.
  destruct (String.eqb_spec (TrainAssignment.trainId a) (TrainAssignment.trainId a1)).
  - repeat split; auto. contradiction.
  - destruct (String.eqb_spec (TrainAssignment.trainId a) (TrainAssignment.trainId a2)).
    + repeat split; auto. contradiction.
    + auto.
Qed.


(** ** [applyDisruption] *)

Lemma applyDisruption_same :
  forall (trains : list Train.t) (disruption : Disruption.t),
    Disruption.type disruption = block_track \/
    JS.truthy_opt (Disruption.delayMinutes disruption) = false \/
    (forall train, In train trains ->
       Disruption.trainId disruption <> Some (Train.id train)) ->
    applyDisruption trains disruption = trains.
Proof.
  intros trains disruption H. unfold applyDisruption.
  rewrite <- (map_id trains) at 2. apply map_ext_in. intros train Hin.
  destruct (Disruption.type disruption); [| reflexivity].
  destruct (Disruption.trainId disruption) as [tid|] eqn:Htid; [| reflexivity].
  destruct (Disruption.delayMinutes disruption) as [dm|]; [| reflexivity].
  destruct H as [H | [H | H]]; [discriminate | |].
  - simpl in H. rewrite H, andb_false_r. reflexivity.
  - destruct (String.eqb_spec (Train.id train) tid) as [Heq | Hne]; [| reflexivity].
    exfalso. apply (H train Hin). congruence.
Qed.

(** X17. [applyDisruption] returns the trains as they are when the
    disruption is not a delay, names no train, names a train that is not in
    the list, or has a delay that is missing, zero or [NaN]: a malformed
    disruption is no error and no change. *)
Theorem applyDisruption_noop :
  forall (trains : list Train.t) (disruption : Disruption.t),
    Disruption.type disruption = block_track \/
    JS.truthy_opt (Disruption.delayMinutes disruption) = false \/
    (forall train, In train trains ->
       Disruption.trainId disruption <> Some (Train.id train)) ->
    applyDisruption trains disruption = trains.
Proof.
  exact applyDisruption_same.
Qed.

(** X18. Two disruptions that name different trains can be applied in
    either order: the resulting train lists are equal. *)
Theorem applyDisruption_commute :
  forall (trains : list Train.t) (d1 d2 : Disruption.t),
    Disruption.trainId d1 <> Disruption.trainId d2 ->
    applyDisruption (applyDisruption trains d1) d2 =
    applyDisruption (applyDisruption trains d2) d1.
Proof.
  intros trains d1 d2 Hne. unfold applyDisruption. rewrite !map_map.
  apply map_ext. intros train.
  destruct (Disruption.type d1), (Disruption.trainId d1) as [t1|],
           (Disruption.delayMinutes d1) as [m1|],
           (Disruption.type d2), (Disruption.trainId d2) as [t2|],
           (Disruption.delayMinutes d2) as [m2|]; try reflexivity.
  destruct (String.eqb (Train.id train) t1) eqn:E1,
           (String.eqb (Train.id train) t2) eqn:E2.
  - apply String.eqb_eq in E1, E2. congruence.
  - destruct (JS.truthy m1), (JS.truthy m2);
      cbn [andb Train.id]; rewrite ?E1, ?E2; reflexivity.
  - destruct (JS.truthy m1), (JS.truthy m2);
      cbn [andb Train.id]; rewrite ?E1, ?E2; reflexivity.
  - cbn [andb]. rewrite E1, E2. reflexivity.
Qed.

(** ** [rescheduleWithDisruption] *)

(** X19. A delay disruption whose delay is missing, zero or [NaN], or which
    names no train of the list, changes nothing: [rescheduleWithDisruption]
    returns the optimized schedule of the trains as both [before] and
    [after] (and throws exactly when that schedule does). *)
Theorem rescheduleWithDisruption_unchanged :
  forall (trains : list Train.t) (config : RailwayConfig.t)
         (disruption : Disruption.t),
    Disruption.type disruption = delay ->
    JS.truthy_opt (Disruption.delayMinutes disruption) = false \/
    (forall train, In train trains ->
       Disruption.trainId disruption <> Some (Train.id train)) ->
    rescheduleWithDisruption trains config disruption =
    (s ← optimizedSchedule (prepareTrainsData trains config) config;
     Some (Comparison.mk s s)).
Proof.
  intros trains config disruption Hty Hno. unfold rescheduleWithDisruption.
  rewrite applyDisruption_same by (right; exact Hno).
  unfold modifiedConfig. rewrite Hty.
  destruct (optimizedSchedule (prepareTrainsData trains config) config); reflexivity.
Qed.

Lemma unique_ids_same (trains : list Train.t) (t1 t2 : Train.t) :
  unique_ids trains -> In t1 trains -> In t2 trains ->
  Train.id t1 = Train.id t2 -> t1 = t2.
Proof.
  intros Hu H1 H2 Heq.
  pose proof (find_train_unique trains t1 Hu H1) as F1.
  pose proof (find_train_unique trains t2 Hu H2) as F2.
  rewrite Heq in F1. congruence.
Qed.

(** X20. After a delay disruption with a non-zero finite delay on a train of
    the list (unique ids, positive speeds, at least one track), the
    [after] schedule never lets that train enter before its scheduled
    arrival plus the delay, and reports its delay relative to that later
    time. *)
Theorem delayed_train_not_early :
  forall (trains : list Train.t) (config : RailwayConfig.t) (train : Train.t)
         (minutes : Q) (trackId : option Z),
    valid_tracks config ->
    JS.finite (RailwayConfig.sectionLength config) ->
    JS.finite (RailwayConfig.safetyHeadway config) ->
    Forall positive_speed trains ->
    unique_ids trains ->
    In train trains ->
    ~ minutes == 0 ->
    exists r,
      rescheduleWithDisruption trains config
        (Disruption.mk delay (Some (Train.id train)) (Some (JS.Fin minutes)) trackId)
        = Some r /\
      forall a,
        In a (Schedule.assignments (Comparison.after r)) ->
        TrainAssignment.trainId a = Train.id train ->
        JS.le (JS.add (Train.scheduledArrival train) (JS.Fin minutes))
              (TrainAssignment.actualArrival a) = true /\
        TrainAssignment.delay a =
          JS.max JS.zero
            (JS.sub (TrainAssignment.actualArrival a)
               (JS.add (Train.scheduledArrival train) (JS.Fin minutes))).
Proof.
  intros trains config train minutes trackId Hv Hsec Hh Hpos Hu Hin Hm.
  set (d := Disruption.mk delay (Some (Train.id train)) (Some (JS.Fin minutes)) trackId).
  assert (Htruthy : JS.truthy (JS.Fin minutes) = true).
  { cbn [JS.truthy]. destruct (Qeq_bool minutes 0) eqn:E; [| reflexivity].
    apply Qeq_bool_iff in E. contradiction. }
  assert (Hpos' : Forall positive_speed (applyDisruption trains d)).
  { unfold applyDisruption. apply List.Forall_forall. intros t Ht.
    apply in_map_iff in Ht as (t0 & <- & Ht0).
    pose proof (proj1 (List.Forall_forall _ _) Hpos t0 Ht0) as Hp0.
    cbn [Disruption.type Disruption.trainId Disruption.delayMinutes d].
    rewrite Htruthy, andb_true_r.
    destruct (String.eqb (Train.id t0) (Train.id train)); [| exact Hp0].
    destruct Hp0 as (Hf & v & Hv0 & Hvpos). split.
    - cbn [Train.scheduledArrival].
      apply JSFacts.finite_Fin in Hf as [x ->]. exact I.
    - exists v. auto. }
  destruct (pipeline_ok trains config Hv Hsec Hh Hpos) as (_ & o & _ & Ho & _).
  destruct (pipeline_ok (applyDisruption trains d) config Hv Hsec Hh Hpos')
    as (_ & o' & _ & Ho' & _ & Hok).
  exists (Comparison.mk o o'). split.
  - unfold rescheduleWithDisruption. rewrite Ho. cbn [mbind option_bind].
    change (modifiedConfig config d) with config. rewrite Ho'. reflexivity.
  - cbn [Comparison.after]. intros a Ha Hid.
    pose proof (proj1 (List.Forall_forall _ _) Hok a Ha)
      as (_ & _ & p & Hp & Hpid & _ & Hle & Hdelay).
    apply prepareTrainsData_In in Hp as (t & Ht & Hidt & Harr & _).
    unfold applyDisruption in Ht. apply in_map_iff in Ht as (t0 & Ht0eq & Ht0).
    cbn [Disruption.type Disruption.trainId Disruption.delayMinutes d] in Ht0eq.
    rewrite Htruthy, andb_true_r in Ht0eq.
    assert (Hid0 : Train.id t = Train.id t0).
    { destruct (String.eqb (Train.id t0) (Train.id train)); subst t; reflexivity. }
    assert (t0 = train).
    { apply (unique_ids_same trains); auto. congruence. }
    subst t0. rewrite String.eqb_refl in Ht0eq. subst t.
    cbn [Train.scheduledArrival] in Harr. rewrite Harr in Hle, Hdelay. auto.
Qed.

(** ** The Gantt chart *)

Lemma gantt_push_skip (trains : list Train.t) (trackData : list GanttTrack.t)
    (index : nat) (a : TrainAssignment.t) :
  counted_with trains a = None ->
  gantt_push trains trackData index a = Some trackData.
Proof.
  unfold counted_with, gantt_push.
  destruct (find_train trains (TrainAssignment.trainId a)) as [train|]; [| reflexivity].
  destruct (Train.duration train) as [d|]; [| reflexivity].
  destruct (JS.truthy d); [discriminate | reflexivity].
Qed.

Lemma gantt_push_counted (trains : list Train.t) (trackData : list GanttTrack.t)
    (index : nat) (a : TrainAssignment.t) (e : GanttEntry.t) :
  gantt_entry trains index a = Some e ->
  gantt_push trains trackData index a =
  (track ← gantt_row trackData (TrainAssignment.trackId a);
   Some (<[Z.to_nat (TrainAssignment.trackId a) :=
             GanttTrack.mk (GanttTrack.trackId track)
               (GanttTrack.assignments track ++ [e])]> trackData)).
Proof.
  unfold gantt_entry, counted_with, gantt_push.
  destruct (find_train trains (TrainAssignment.trainId a)) as [train|]; [| discriminate].
  destruct (Train.duration train) as [d|]; [| discriminate].
  destruct (JS.truthy d); [| discriminate].
  intros [= <-]. reflexivity.
Qed.

Lemma gantt_entry_counted (trains : list Train.t) (index : nat)
    (a : TrainAssignment.t) :
  gantt_entry trains index a = None <-> counted_with trains a = None.
Proof.
  unfold gantt_entry. destruct (counted_with trains a) as [[train d]|]; split;
    congruence.
Qed.

Lemma gantt_row_Some (trackData : list GanttTrack.t) (k : Z) :
  (0 <= k < Z.of_nat (List.length trackData))%Z ->
  exists track, gantt_row trackData k = Some track /\
                trackData !! Z.to_nat k = Some track.
Proof.
  intros Hk. unfold gantt_row.
  destruct (Z.leb_spec 0 k); [| lia].
  destruct (lookup_lt_is_Some_2 trackData (Z.to_nat k)) as [track Ht]; [lia |].
  exists track. auto.
Qed.

Lemma gantt_row_None (trackData : list GanttTrack.t) (k : Z) :
  ~ (0 <= k < Z.of_nat (List.length trackData))%Z ->
  gantt_row trackData k = None.
Proof.
  intros Hk. unfold gantt_row.
  destruct (Z.leb_spec 0 k); [| reflexivity].
  apply lookup_ge_None. lia.
Qed.

(** The loop over the assignments: either every assignment is drawable and
    each row receives the entries of its track, in order, or some
    assignment is not and the loop throws. *)
Lemma gantt_populate_cases (trains : list Train.t)
    (assignments : list TrainAssignment.t) :
  forall (index : nat) (trackData : list GanttTrack.t),
    (Forall (drawable trains (Z.of_nat (List.length trackData))) assignments /\
     gantt_populate trains index assignments trackData =
       Some (imap (gantt_filled trains index assignments) trackData)) \/
    (Exists (fun a => ~ drawable trains (Z.of_nat (List.length trackData)) a)
       assignments /\
     gantt_populate trains index assignments trackData = None).
Proof.
  induction assignments as [|a rest IH]; intros index trackData.
  - left. split; [constructor |]. cbn [gantt_populate]. f_equal.
    apply list_eq. intros i. rewrite list_lookup_imap.
    destruct (trackData !! i) as [[k l]|]; [| reflexivity].
    cbn. unfold gantt_filled. cbn. now rewrite app_nil_r.
  - cbn [gantt_populate].
    destruct (gantt_entry trains index a) as [e|] eqn:He.
    + rewrite (gantt_push_counted _ _ _ _ _ He).
      assert (Hc : counted_with trains a <> None).
      { intros Hc. apply (gantt_entry_counted trains index a) in Hc.
        rewrite He in Hc. discriminate. }
      destruct (Z_le_dec 0 (TrainAssignment.trackId a)) as [H0 |];
        [destruct (Z_lt_dec (TrainAssignment.trackId a)
                     (Z.of_nat (List.length trackData))) as [H1 |] |].
      * destruct (gantt_row_Some trackData (TrainAssignment.trackId a))
          as (track & -> & Htrack); [lia |].
        cbn [mbind option_bind].
        set (trackData' := <[Z.to_nat (TrainAssignment.trackId a) := _]> trackData).
        assert (Hlen : List.length trackData' = List.length trackData)
          by apply length_insert.
        destruct (IH (S index) trackData') as [[Hall Hrun] | [Hbad Hrun]];
          rewrite Hlen in *.
        -- left. split; [constructor; [right; lia | exact Hall] |].
           rewrite Hrun. f_equal. apply list_eq. intros i.
           rewrite !list_lookup_imap. unfold trackData'.
           rewrite list_lookup_insert.
           destruct (decide (Z.to_nat (TrainAssignment.trackId a) = i
                             ∧ (Z.to_nat (TrainAssignment.trackId a)
                                < List.length trackData)%nat)) as [[Hi _] | Hi].
           ++ subst i. rewrite Htrack. cbn. unfold gantt_filled.
              cbn [gantt_entries GanttTrack.trackId GanttTrack.assignments].
              rewrite He, Z2Nat.id, Z.eqb_refl, <- app_assoc by exact H0. reflexivity.
           ++ destruct (trackData !! i) as [row|] eqn:Hrow; [| reflexivity].
              cbn. unfold gantt_filled. cbn [gantt_entries]. rewrite He.
              destruct (Z.eqb_spec (TrainAssignment.trackId a) (Z.of_nat i)) as [Heq |];
                [| reflexivity].
              exfalso. apply Hi. rewrite Heq, Nat2Z.id. split; [reflexivity |].
              apply lookup_lt_is_Some. eauto.
        -- right. split; [now apply Exists_cons_tl | exact Hrun].
      * right. split.
        -- apply Exists_cons_hd. intros [Hd | Hd]; [contradiction | lia].
        -- rewrite gantt_row_None by lia. reflexivity.
      * right. split.
        -- apply Exists_cons_hd. intros [Hd | Hd]; [contradiction | lia].
        -- rewrite gantt_row_None by lia. reflexivity.
    + pose proof (proj1 (gantt_entry_counted trains index a) He) as Hc.
      rewrite (gantt_push_skip _ _ _ _ Hc). cbn [mbind option_bind].
      destruct (IH (S index) trackData) as [[Hall Hrun] | [Hbad Hrun]].
      * left. split; [constructor; [now left | exact Hall] |].
        rewrite Hrun. f_equal. apply list_eq. intros i. rewrite !list_lookup_imap.
        destruct (trackData !! i) as [row|]; [| reflexivity].
        cbn. unfold gantt_filled. cbn [gantt_entries]. rewrite He. reflexivity.
      * right. split; [now apply Exists_cons_tl | exact Hrun].
Qed.

Lemma gantt_init_length (tracks : Z) :
  Z.of_nat (List.length (gantt_init tracks)) = Z.max 0 tracks.
Proof.
  unfold gantt_init. rewrite length_map, length_seq. lia.
Qed.

Lemma drawable_max (trains : list Train.t) (tracks : Z) (a : TrainAssignment.t) :
  drawable trains (Z.max 0 tracks) a <-> drawable trains tracks a.
Proof.
  unfold drawable. split; (intros [H | H]; [now left | right; lia]).
Qed.

Lemma chartData_cases (schedule : Schedule.t) (trains : list Train.t)
    (config : RailwayConfig.t) :
  (Forall (drawable trains (RailwayConfig.tracks config))
     (Schedule.assignments schedule) /\
   chartData schedule trains config =
     Some (map gantt_sort
             (imap (gantt_filled trains 0 (Schedule.assignments schedule))
                (gantt_init (RailwayConfig.tracks config))))) \/
  (Exists (fun a => ~ drawable trains (RailwayConfig.tracks config) a)
     (Schedule.assignments schedule) /\
   chartData schedule trains config = None).
Proof.
  unfold chartData.
  destruct (gantt_populate_cases trains (Schedule.assignments schedule) 0
              (gantt_init (RailwayConfig.tracks config)))
    as [[Hall Hrun] | [Hbad Hrun]]; rewrite Hrun, gantt_init_length in *.
  - left. split; [| reflexivity].
    eapply List.Forall_impl; [| exact Hall]. intros a. apply drawable_max.
  - right. split; [| reflexivity].
    eapply List.Exists_impl; [| exact Hbad]. intros a Ha Hd. apply Ha.
    now apply drawable_max.
Qed.

Lemma chartData_row (schedule : Schedule.t) (trains : list Train.t)
    (config : RailwayConfig.t) :
  Forall (drawable trains (RailwayConfig.tracks config))
    (Schedule.assignments schedule) ->
  exists rows,
    chartData schedule trains config = Some rows /\
    List.length rows = Z.to_nat (RailwayConfig.tracks config) /\
    forall i, (i < Z.to_nat (RailwayConfig.tracks config))%nat ->
      rows !! i =
      Some (GanttTrack.mk (Z.of_nat i)
              (array_sort start_order
                 (gantt_entries trains 0 (Schedule.assignments schedule)
                    (Z.of_nat i)))).
Proof.
  intros Hall.
  destruct (chartData_cases schedule trains config) as [[_ Hrun] | [Hbad _]].
  - eexists. split; [exact Hrun |]. split.
    + rewrite length_map, length_imap. unfold gantt_init.
      now rewrite length_map, length_seq.
    + intros i Hi. rewrite lookup_map, list_lookup_imap. unfold gantt_init.
      rewrite lookup_map, lookup_seq_lt by exact Hi. reflexivity.
  - exfalso. apply List.Exists_exists in Hbad as (a & Ha & Hbad).
    apply Hbad. exact (proj1 (List.Forall_forall _ _) Hall a Ha).
Qed.

(** X21. [chartData] throws exactly when some assignment whose train is
    known and has a truthy duration carries a track id outside
    [0 .. tracks-1]: the row it would be pushed on does not exist.
    Assignments of unknown trains or of trains without duration never make
    it throw. *)
Theorem chartData_throws_iff :
  forall (schedule : Schedule.t) (trains : list Train.t) (config : RailwayConfig.t),
    chartData schedule trains config = None <->
    Exists (fun a => counted_with trains a <> None /\
                     ~ (0 <= TrainAssignment.trackId a
                        < RailwayConfig.tracks config)%Z)
      (Schedule.assignments schedule).
Proof.
  intros schedule trains config.
  destruct (chartData_cases schedule trains config) as [[Hall Hrun] | [Hbad Hrun]];
    rewrite Hrun; split; try discriminate; try reflexivity.
  - intros Hbad. exfalso. apply List.Exists_exists in Hbad as (a & Ha & Hc & Hr).
    destruct (proj1 (List.Forall_forall _ _) Hall a Ha); contradiction.
  - intros _. eapply List.Exists_impl; [| exact Hbad].
    intros a Ha. split.
    + intros Hc. apply Ha. now left.
    + intros Hr. apply Ha. now right.
Qed.


Lemma gantt_entries_In (trains : list Train.t) (assignments : list TrainAssignment.t)
    (k : Z) (e : GanttEntry.t) :
  forall index,
    In e (gantt_entries trains index assignments k) ->
    exists a i, In a assignments /\ gantt_entry trains i a = Some e /\
                TrainAssignment.trackId a = k.
Proof.
  induction assignments as [|a rest IH]; intros index; cbn [gantt_entries];
    [contradiction |].
  assert (Hrest : In e (gantt_entries trains (S index) rest k) ->
                  exists a' i, In a' (a :: rest) /\ gantt_entry trains i a' = Some e /\
                               TrainAssignment.trackId a' = k).
  { intros H. destruct (IH _ H) as (a' & i & Ha' & He & Hk).
    exists a', i. split; [now right | auto]. }
  destruct (gantt_entry trains index a) as [e'|] eqn:He; [| exact Hrest].
  destruct (Z.eqb_spec (TrainAssignment.trackId a) k) as [Hk |]; [| exact Hrest].
  intros [<- | H]; [| exact (Hrest H)].
  exists a, index. split; [now left | auto].
Qed.

Lemma gantt_entries_drawn (trains : list Train.t)
    (assignments : list TrainAssignment.t) (a : TrainAssignment.t) :
  In a assignments -> counted_with trains a <> None ->
  forall index,
    exists i e, gantt_entry trains i a = Some e /\
                In e (gantt_entries trains index assignments
                        (TrainAssignment.trackId a)).
Proof.
  intros Hin Hc.
  induction assignments as [|b rest IH]; intros index; [contradiction |].
  cbn [gantt_entries]. destruct Hin as [-> | Hin].
  - destruct (gantt_entry trains index a) as [e|] eqn:He.
    + exists index, e. rewrite Z.eqb_refl. split; [assumption | now left].
    + apply gantt_entry_counted in He. contradiction.
  - destruct (IH Hin (S index)) as (i & e & He & Hine).
    exists i, e. split; [assumption |].
    destruct (gantt_entry trains index b) as [e'|]; [| assumption].
    destruct (TrainAssignment.trackId b =? TrainAssignment.trackId a)%Z;
      [now right | assumption].
Qed.

Lemma gantt_entries_none (trains : list Train.t)
    (assignments : list TrainAssignment.t) (k : Z) :
  Forall (fun a => TrainAssignment.trackId a <> k) assignments ->
  forall index, gantt_entries trains index assignments k = [].
Proof.
  induction 1 as [|a rest Ha _ IH]; intros index; cbn [gantt_entries];
    [reflexivity |].
  destruct (gantt_entry trains index a); [| apply IH].
  destruct (Z.eqb_spec (TrainAssignment.trackId a) k); [contradiction | apply IH].
Qed.

Lemma start_order_sorted (l : list GanttEntry.t) :
  Forall (fun e => JS.finite (GanttEntry.start e)) l ->
  StronglySorted start_before (array_sort start_order l).
Proof.
  intros Hfin.
  apply Sorted_StronglySorted.
  { intros x y z. unfold start_before. apply js_le_trans. }
  apply (Sorted_Forall_impl (in_order start_order) start_before
           (fun e => JS.finite (GanttEntry.start e))).
  - intros a b Ha Hb. unfold in_order, start_before, start_order.
    apply JSFacts.finite_Fin in Ha as [x ->].
    apply JSFacts.finite_Fin in Hb as [y ->].
    change (JS.sub (JS.Fin x) (JS.Fin y)) with (JS.Fin (x - y)).
    unfold JS.zero. intros H. js_order. lra.
  - now apply array_sort_Forall.
  - apply array_sort_sorted. intros x y. unfold start_order. apply sub_asym.
Qed.

Lemma chartData_drawable (schedule : Schedule.t) (trains : list Train.t)
    (config : RailwayConfig.t) (rows : list GanttTrack.t) :
  chartData schedule trains config = Some rows ->
  Forall (drawable trains (RailwayConfig.tracks config))
    (Schedule.assignments schedule).
Proof.
  intros Hrows.
  destruct (chartData_cases schedule trains config) as [[Hall _] | [_ Hrun]];
    [exact Hall | congruence].
Qed.

(** X23. When the arrivals of the assignments are finite, every row that
    [chartData] returns is in the order of the start times: no entry starts
    after an entry that follows it in its row. *)
Theorem chartData_sorted :
  forall (schedule : Schedule.t) (trains : list Train.t) (config : RailwayConfig.t)
         (rows : list GanttTrack.t),
    chartData schedule trains config = Some rows ->
    Forall (fun a => JS.finite (TrainAssignment.actualArrival a))
      (Schedule.assignments schedule) ->
    forall row, In row rows ->
      StronglySorted start_before (GanttTrack.assignments row).
Proof.
  intros schedule trains config rows Hrows Hfin row Hrow.
  destruct (chartData_row schedule trains config
              (chartData_drawable _ _ _ _ Hrows)) as (rows' & Hrows' & Hlen & Hlook).
  assert (rows' = rows) by congruence. subst rows'.
  apply list_elem_of_In, list_elem_of_lookup in Hrow as [i Hi].
  assert (Hlt : (i < Z.to_nat (RailwayConfig.tracks config))%nat).
  { rewrite <- Hlen. apply lookup_lt_is_Some. eauto. }
  rewrite (Hlook i Hlt) in Hi. injection Hi as <-. cbn [GanttTrack.assignments].
  apply start_order_sorted. apply List.Forall_forall. intros e He.
  apply gantt_entries_In in He as (a & j & Ha & He & _).
  unfold gantt_entry in He. destruct (counted_with trains a) as [[train d]|];
    [| discriminate].
  injection He as <-. cbn [GanttEntry.start].
  exact (proj1 (List.Forall_forall _ _) Hfin a Ha).
Qed.

(** X24. Whenever [chartData] returns, every assignment whose train is known
    and has a truthy duration is drawn in the row of its own track, with its
    arrival as start, that duration, the priority of the train and its
    delay. *)
Theorem chartData_draws_counted :
  forall (schedule : Schedule.t) (trains : list Train.t) (config : RailwayConfig.t)
         (rows : list GanttTrack.t) (a : TrainAssignment.t) (train : Train.t)
         (d : JS.number),
    chartData schedule trains config = Some rows ->
    In a (Schedule.assignments schedule) ->
    counted_with trains a = Some (train, d) ->
    exists row e,
      rows !! Z.to_nat (TrainAssignment.trackId a) = Some row /\
      GanttTrack.trackId row = TrainAssignment.trackId a /\
      In e (GanttTrack.assignments row) /\
      GanttEntry.trainId e = TrainAssignment.trainId a /\
      GanttEntry.start e = TrainAssignment.actualArrival a /\
      GanttEntry.duration e = d /\
      GanttEntry.priority e = Train.priority train /\
      GanttEntry.delay e = TrainAssignment.delay a.
Proof.
  intros schedule trains config rows a train d Hrows Ha Hc.
  pose proof (chartData_drawable _ _ _ _ Hrows) as Hall.
  destruct (chartData_row schedule trains config Hall) as (rows' & Hrows' & Hlen & Hlook).
  assert (rows' = rows) by congruence. subst rows'.
  destruct (proj1 (List.Forall_forall _ _) Hall a Ha) as [Hn | Hrange];
    [congruence |].
  rewrite (Hlook (Z.to_nat (TrainAssignment.trackId a))) by lia.
  rewrite Z2Nat.id by lia.
  destruct (gantt_entries_drawn trains (Schedule.assignments schedule) a Ha
              ltac:(congruence) 0%nat) as (i & e & He & Hin).
  eexists. exists e. split; [reflexivity |].
  cbn [GanttTrack.trackId GanttTrack.assignments].
  split; [reflexivity |]. split; [now apply array_sort_In |].
  unfold gantt_entry in He. rewrite Hc in He. injection He as <-.
  repeat split.
Qed.

(** X25. With at least one track, the dashboard can always draw what
    [rescheduleWithDisruption] returns: with the undisrupted prepared trains
    and the configuration as entered, [chartData] returns for the [before]
    and for the [after] schedule, each with one row per track, also when the
    disruption blocks a track. *)
Theorem dashboard_charts_defined :
  forall (trains : list Train.t) (config : RailwayConfig.t)
         (disruption : Disruption.t) (r : Comparison.t),
    (1 <= RailwayConfig.tracks config)%Z ->
    rescheduleWithDisruption trains config disruption = Some r ->
    exists rowsBefore rowsAfter,
      chartData (Comparison.before r) (prepareTrainsData trains config) config
        = Some rowsBefore /\
      chartData (Comparison.after r) (prepareTrainsData trains config) config
        = Some rowsAfter /\
      List.length rowsBefore = Z.to_nat (RailwayConfig.tracks config) /\
      List.length rowsAfter = Z.to_nat (RailwayConfig.tracks config).
Proof.
  intros trains config disruption r Htracks Hr.
  unfold rescheduleWithDisruption in Hr.
  destruct (optimizedSchedule (prepareTrainsData trains config) config)
    as [b|] eqn:Hb; cbn [mbind option_bind] in Hr; [| discriminate].
  destruct (optimizedSchedule _ (modifiedConfig config disruption))
    as [a|] eqn:Ha; cbn [mbind option_bind] in Hr; [| discriminate].
  injection Hr as <-. cbn [Comparison.before Comparison.after].
  destruct (chartData_row b (prepareTrainsData trains config) config)
    as (rowsB & HB & HlenB & _).
  { apply List.Forall_forall. intros x Hx. right.
    pose proof (schedules_track_bound _ _ _ (or_intror Hb) x Hx). lia. }
  destruct (chartData_row a (prepareTrainsData trains config) config)
    as (rowsA & HA & HlenA & _).
  { apply List.Forall_forall. intros x Hx. right.
    pose proof (schedules_track_bound _ _ _ (or_intror Ha) x Hx) as Hbound.
    assert (RailwayConfig.tracks (modifiedConfig config disruption)
            <= RailwayConfig.tracks config)%Z.
    { unfold modifiedConfig.
      destruct (Disruption.type disruption), (Disruption.trackId disruption);
        cbn [RailwayConfig.tracks]; lia. }
    lia. }
  exists rowsB, rowsA. auto.
Qed.

(** X26. After a track block on a section with at least two tracks, the
    chart of the [after] schedule, drawn with the configuration as entered,
    leaves its last row empty, whichever track the disruption names. *)
Theorem blocked_chart_last_row_empty :
  forall (trains : list Train.t) (config : RailwayConfig.t)
         (disruption : Disruption.t) (blocked : Z) (r : Comparison.t),
    (2 <= RailwayConfig.tracks config)%Z ->
    Disruption.type disruption = block_track ->
    Disruption.trackId disruption = Some blocked ->
    rescheduleWithDisruption trains config disruption = Some r ->
    exists rows,
      chartData (Comparison.after r) (prepareTrainsData trains config) config
        = Some rows /\
      rows !! Z.to_nat (RailwayConfig.tracks config - 1) =
        Some (GanttTrack.mk (RailwayConfig.tracks config - 1) []).
Proof.
  intros trains config disruption blocked r Htracks Hty Hid Hr.
  unfold rescheduleWithDisruption in Hr.
  destruct (optimizedSchedule (prepareTrainsData trains config) config)
    as [b|]; cbn [mbind option_bind] in Hr; [| discriminate].
  destruct (optimizedSchedule _ (modifiedConfig config disruption))
    as [a|] eqn:Ha; cbn [mbind option_bind] in Hr; [| discriminate].
  injection Hr as <-. cbn [Comparison.after].
  assert (Hbound : forall x, In x (Schedule.assignments a) ->
            (0 <= TrainAssignment.trackId x < RailwayConfig.tracks config - 1)%Z).
  { intros x Hx.
    pose proof (schedules_track_bound _ _ _ (or_intror Ha) x Hx) as H.
    unfold modifiedConfig in H. rewrite Hty, Hid in H.
    cbn [RailwayConfig.tracks] in H. lia. }
  destruct (chartData_row a (prepareTrainsData trains config) config)
    as (rows & Hrows & _ & Hlook).
  { apply List.Forall_forall. intros x Hx. right. specialize (Hbound x Hx). lia. }
  exists rows. split; [exact Hrows |].
  rewrite Hlook by lia. rewrite Z2Nat.id by lia.
  rewrite gantt_entries_none; [reflexivity |].
  apply List.Forall_forall. intros x Hx. specialize (Hbound x Hx). lia.
Qed.

(** ** Geometry of the chart *)





(** ** As many tracks as trains *)

Lemma max_arrival_zero (s : Q) : 0 <= s -> JS.max (JS.Fin s) JS.zero = JS.Fin s.
Proof.
  intros Hs. unfold JS.max, JS.zero.
  destruct (JS.lt (JS.Fin s) (JS.Fin 0)) eqn:E; [| reflexivity].
  js_order. lra.
Qed.

Lemma delay_none (s : Q) : JS.max JS.zero (JS.sub (JS.Fin s) (JS.Fin s)) = JS.zero.
Proof.
  change (JS.sub (JS.Fin s) (JS.Fin s)) with (JS.Fin (s - s)).
  unfold JS.max, JS.zero.
  destruct (JS.lt (JS.Fin 0) (JS.Fin (s - s))) eqn:E; [| reflexivity].
  js_order. lra.
Qed.

(** With an unused track left, a punctual train enters at its scheduled
    arrival, on that track or on one before it. *)
Lemma best_track_on_time (config : RailwayConfig.t) (train : Train.t)
    (tracksNextFree : list JS.number) (p : nat) (s d H : Q) :
  (1 <= RailwayConfig.tracks config)%Z ->
  Train.scheduledArrival train = JS.Fin s ->
  RailwayConfig.timeHorizon config = JS.Fin H ->
  0 <= s -> s + d <= H ->
  Forall JS.is_time tracksNextFree ->
  List.length tracksNextFree = Z.to_nat (RailwayConfig.tracks config) ->
  fresh_from p tracksNextFree ->
  (p < List.length tracksNextFree)%nat ->
  exists k,
    (k <= p)%nat /\
    best_track train (JS.Fin d) config tracksNextFree = (k, JS.Fin s).
Proof.
  intros Htracks Hs HH Hs0 Hend Hfree Hlen Hfresh Hp.
  destruct (best_track_spec train (JS.Fin d) config tracksNextFree s Hs Hfree
              Htracks Hlen) as [Hchoice _].
  destruct (best_track train (JS.Fin d) config tracksNextFree) as [k start].
  cbn [fst snd] in Hchoice.
  destruct Hchoice as (Hk & Hstart & Hfeas & _).
  assert (Hcp : candidate_start train tracksNextFree p = JS.Fin s).
  { unfold candidate_start. rewrite Hs, (Hfresh p) by lia.
    now apply max_arrival_zero. }
  assert (Hokp : feasible train (JS.Fin d) config tracksNextFree p).
  { unfold feasible. rewrite Hcp, HH.
    change (JS.add (JS.Fin s) (JS.Fin d)) with (JS.Fin (s + d)). js_order. exact Hend. }
  destruct Hfeas as (_ & Hmin & Htie).
  { exists p. split; [lia | exact Hokp]. }
  specialize (Hmin p ltac:(lia) Hokp). rewrite Hcp in Hmin.
  assert (Hck : candidate_start train tracksNextFree k = JS.Fin s).
  { revert Hmin. unfold candidate_start. rewrite Hs.
    destruct (array_get tracksNextFree k) as [| |x|]; cbn; try discriminate;
      try reflexivity.
    destruct (JS.Qlt_bool s x) eqn:E; [| reflexivity].
    intros Hle. apply JSFacts.Qlt_bool_iff in E. apply Qle_bool_iff in Hle. lra. }
  exists k. split.
  - destruct (le_lt_dec k p) as [Hle | Hlt]; [exact Hle |].
    specialize (Htie p Hlt Hokp). rewrite Hck, Hcp in Htie. js_order. lra.
  - rewrite Hstart, Hck. reflexivity.
Qed.

Lemma greedy_fold_on_time (config : RailwayConfig.t) (h : Q) (trains : list Train.t) :
  (1 <= RailwayConfig.tracks config)%Z ->
  RailwayConfig.safetyHeadway config = JS.Fin h ->
  forall sorted,
    Forall (punctual_train config) sorted ->
    (forall train, In train sorted -> In train trains) ->
    forall tracksNextFree acc p,
      Forall JS.is_time tracksNextFree ->
      List.length tracksNextFree = Z.to_nat (RailwayConfig.tracks config) ->
      fresh_from p tracksNextFree ->
      (p + List.length sorted <= List.length tracksNextFree)%nat ->
      Forall (on_time trains) acc ->
      Forall (on_time trains)
        (snd (fold_left (greedy_step config) sorted (tracksNextFree, acc))).
Proof.
  intros Htracks Hh.
  induction 1 as [|train sorted (s & d & H & Hs & Hd & HH & Hs0 & Hd0 & Hend) _ IH];
    intros Hin free acc p Hfree Hlen Hfresh Hp Hacc; cbn [fold_left]; [exact Hacc |].
  cbn [List.length] in Hp.
  destruct (best_track_on_time config train free p s d H Htracks Hs HH Hs0 Hend
              Hfree Hlen Hfresh ltac:(lia)) as (k & Hk & Hbest).
  unfold greedy_step at 2. cbn [fst snd].
  rewrite Hd, (truthy_positive d Hd0). cbn [negb]. rewrite Hbest.
  rewrite Hs, delay_none, Hh.
  apply IH with (p := S p).
  - intros t Ht. apply Hin. now right.
  - apply array_set_time; [lia | exact Hfree | exact I].
  - rewrite array_set_length by lia. exact Hlen.
  - intros j Hj. rewrite array_set_length in Hj by lia.
    rewrite array_get_set_ne by lia. apply Hfresh. lia.
  - rewrite array_set_length by lia. lia.
  - apply Forall_app. split; [exact Hacc |]. constructor; [| constructor].
    split; [reflexivity |]. exists train.
    split; [apply Hin; now left |]. split; [reflexivity |].
    cbn [TrainAssignment.actualArrival]. now rewrite Hs.
Qed.

Lemma filter_all {A : Type} (f : A -> bool) (l : list A) :
  (forall x, In x l -> f x = true) -> List.filter f l = l.
Proof.
  induction l as [|x l IH]; intros H; [reflexivity |].
  cbn [List.filter]. rewrite (H x) by now left.
  rewrite IH; [reflexivity |]. intros y Hy. apply H. now right.
Qed.

Lemma punctual_positive (config : RailwayConfig.t) (train : Train.t) :
  punctual_train config train -> positive_train train.
Proof.
  intros (s & d & H & Hs & Hd & _ & _ & Hd0 & _).
  split; [rewrite Hs; exact I |]. exists d. auto.
Qed.

(** X29. With at least as many tracks as trains, unique ids, a headway that
    is not negative and trains that are scheduled at or after 0 and would
    leave the section within the horizon when on time, nobody waits: the
    greedy and the optimized schedule are the same, every train has an
    assignment, and every assignment enters at its train's scheduled arrival
    with a delay of 0. *)
Theorem enough_tracks_no_delay :
  forall (trains : list Train.t) (config : RailwayConfig.t),
    valid_tracks config ->
    nonneg_headway config ->
    unique_ids trains ->
    Forall (punctual_train config) trains ->
    (Z.of_nat (List.length trains) <= RailwayConfig.tracks config)%Z ->
    exists s,
      greedySchedule trains config = Some s /\
      optimizedSchedule trains config = Some s /\
      List.length (Schedule.assignments s) = List.length trains /\
      Forall (on_time trains) (Schedule.assignments s).
Proof.
  intros trains config Hv (h & Hh & Hh0) Hu Hpunct Hcount.
  assert (Hpos : Forall positive_train trains).
  { eapply List.Forall_impl; [| exact Hpunct]. apply punctual_positive. }
  destruct (optimizedSchedule_greedy trains config h Hh Hh0 Hu Hpos (proj1 Hv))
    as [Hsame _].
  pose proof (greedySchedule_eq trains config ltac:(unfold valid_tracks in Hv; lia))
    as Hg.
  eexists. split; [exact Hg |]. split; [rewrite Hsame; exact Hg |].
  rewrite computeScheduleMetrics_assignments.
  pose proof (array_sort_perm train_order trains) as Hperm.
  split.
  - rewrite <- (length_map TrainAssignment.trainId). unfold greedy_loop.
    rewrite greedy_fold_ids. cbn [snd map app]. rewrite length_map, filter_all.
    + exact (Permutation_length Hperm).
    + intros t Ht. apply array_sort_In in Ht.
      destruct (proj1 (List.Forall_forall _ _) Hpunct t Ht)
        as (s & d & H & _ & Hd & _ & _ & Hd0 & _).
      unfold has_duration. rewrite Hd. exact (truthy_positive d Hd0).
  - unfold greedy_loop.
    apply (greedy_fold_on_time config h trains (proj1 Hv) Hh) with (p := 0%nat).
    + now apply array_sort_Forall.
    + intros t Ht. now apply array_sort_In in Ht.
    + apply finite_times, repeat_finite.
    + apply repeat_length.
    + intros j Hj. rewrite repeat_length in Hj. unfold array_get.
      destruct (repeat JS.zero (Z.to_nat (RailwayConfig.tracks config)) !! j)
        as [x|] eqn:Hx.
      * apply list_elem_of_lookup_2, list_elem_of_In, repeat_spec in Hx.
        subst x. reflexivity.
      * apply lookup_ge_None in Hx. rewrite repeat_length in Hx. lia.
    + rewrite repeat_length, (Permutation_length Hperm). cbn. lia.
    + constructor.
Qed.

(** ** The further properties at concrete inputs *)

Lemma schedule_without_durations_witness :
  greedySchedule [Examples.T1; Examples.T2] Examples.default_config =
    Some (empty_schedule Examples.default_config) /\
  optimizedSchedule [Examples.T1; Examples.T2] Examples.default_config =
    Some (empty_schedule Examples.default_config).
Proof.
  apply schedule_without_durations.
  - simpl. lia.
  - intros train [<- | [<- | []]]; reflexivity.
Defined.

Lemma schedule_consistent_witness :
  exists s,
    optimizedSchedule [Examples.trainA; Examples.trainB] Examples.config = Some s /\
    s = computeScheduleMetrics (Schedule.assignments s)
          [Examples.trainA; Examples.trainB] Examples.config.
Proof.
  eexists. split; [reflexivity |].
  apply schedule_consistent. right. reflexivity.
Defined.

Lemma optimizedSchedule_keeps_placements_witness :
  exists o g,
    optimizedSchedule [Examples.trainB; Examples.trainA] Examples.config = Some o /\
    greedySchedule [Examples.trainB; Examples.trainA] Examples.config = Some g /\
    map placement (Schedule.assignments o) = map placement (Schedule.assignments g).
Proof.
  assert (H : exists o,
            optimizedSchedule [Examples.trainB; Examples.trainA] Examples.config = Some o)
    by (eexists; reflexivity).
  destruct H as [o Ho].
  destruct (optimizedSchedule_keeps_placements _ _ o Ho) as (g & Hg & Hmap).
  exists o, g. auto.
Defined.

Lemma trackId_in_range_witness :
  exists s,
    optimizedSchedule
      (prepareTrainsData [Examples.T1; Examples.T2; Examples.T3] Examples.default_config)
      Examples.default_config = Some s /\
    forall a, In a (Schedule.assignments s) ->
      (0 <= TrainAssignment.trackId a < 3)%Z.
Proof.
  eexists. split; [reflexivity |].
  apply (trackId_in_range
           (prepareTrainsData [Examples.T1; Examples.T2; Examples.T3]
              Examples.default_config)
           Examples.default_config).
  - simpl. lia.
  - right. reflexivity.
Defined.


Lemma greedy_processing_order_witness :
  Permutation (array_sort train_order [Examples.T2; Examples.T3; Examples.T1])
    [Examples.T2; Examples.T3; Examples.T1] /\
  StronglySorted train_before
    (array_sort train_order [Examples.T2; Examples.T3; Examples.T1]).
Proof.
  apply greedy_processing_order. repeat constructor.
Defined.


Lemma utilization_out_of_range_witness :
  Schedule.utilization
    (computeScheduleMetrics [MoreExamples.stray_A; MoreExamples.then_B]
       [Examples.trainA; Examples.trainB] Examples.default_config) !! 5%Z =
  Some JS.NaN.
Proof.
  rewrite (utilization_out_of_range [MoreExamples.stray_A; MoreExamples.then_B]
             [Examples.trainA; Examples.trainB] Examples.default_config 5)
    by (simpl; lia).
  reflexivity.
Defined.


Lemma trySwapTrains_frame_witness :
  exists newAssignments,
    trySwapTrains [MoreExamples.late_A; MoreExamples.early_B]
      MoreExamples.late_A MoreExamples.early_B
      [Examples.trainA; Examples.trainB] Examples.config = Some (Some newAssignments) /\
    List.length newAssignments = 2%nat.
Proof.
  eexists. split; [reflexivity |].
  apply (trySwapTrains_frame [MoreExamples.late_A; MoreExamples.early_B]
           MoreExamples.late_A MoreExamples.early_B
           [Examples.trainA; Examples.trainB] Examples.config).
  reflexivity.
Defined.


Lemma applyDisruption_noop_witness :
  applyDisruption [Examples.T1; Examples.T2; Examples.T3] MoreExamples.delay_T9 =
  [Examples.T1; Examples.T2; Examples.T3].
Proof.
  apply applyDisruption_noop. right. right.
  intros train [<- | [<- | [<- | []]]]; discriminate.
Defined.

Lemma applyDisruption_commute_witness :
  applyDisruption
    (applyDisruption [Examples.T1; Examples.T2; Examples.T3] Examples.delay_T3)
    MoreExamples.delay_T1 =
  applyDisruption
    (applyDisruption [Examples.T1; Examples.T2; Examples.T3] MoreExamples.delay_T1)
    Examples.delay_T3.
Proof.
  apply applyDisruption_commute. discriminate.
Defined.

Lemma rescheduleWithDisruption_unchanged_witness :
  rescheduleWithDisruption [Examples.T1; Examples.T2; Examples.T3]
    Examples.default_config MoreExamples.delay_T9 =
  (s ← optimizedSchedule
         (prepareTrainsData [Examples.T1; Examples.T2; Examples.T3]
            Examples.default_config)
         Examples.default_config;
   Some (Comparison.mk s s)).
Proof.
  apply rescheduleWithDisruption_unchanged.
  - reflexivity.
  - right. intros train [<- | [<- | [<- | []]]]; discriminate.
Defined.

Lemma delayed_train_not_early_witness :
  exists r,
    rescheduleWithDisruption [Examples.T1; Examples.T2; Examples.T3]
      Examples.default_config Examples.delay_T3 = Some r /\
    forall a,
      In a (Schedule.assignments (Comparison.after r)) ->
      TrainAssignment.trainId a = "T3"%string ->
      JS.le (JS.Fin (10 + 12)) (TrainAssignment.actualArrival a) = true.
Proof.
  destruct (delayed_train_not_early [Examples.T1; Examples.T2; Examples.T3]
              Examples.default_config Examples.T3 12 None) as (r & Hr & Hlate).
  - unfold valid_tracks. simpl. lia.
  - exact I.
  - exact I.
  - repeat constructor;
      [exists 60 | exists 40 | exists 80]; split; try reflexivity; lra.
  - unfold unique_ids. apply (bool_decide_unpack _). vm_compute. exact I.
  - simpl. auto.
  - lra.
  - exists r. split; [exact Hr |].
    intros a Ha Hid. exact (proj1 (Hlate a Ha Hid)).
Defined.


Lemma chartData_sorted_witness :
  exists rows,
    chartData MoreExamples.schedule [Examples.trainA; Examples.trainB] Examples.config
      = Some rows /\
    forall row, In row rows ->
      StronglySorted start_before (GanttTrack.assignments row).
Proof.
  eexists. split; [reflexivity |].
  apply (chartData_sorted MoreExamples.schedule [Examples.trainA; Examples.trainB]
           Examples.config).
  - reflexivity.
  - repeat constructor.
Defined.

Lemma chartData_draws_counted_witness :
  exists rows row e,
    chartData MoreExamples.schedule [Examples.trainA; Examples.trainB] Examples.config
      = Some rows /\
    rows !! 0%nat = Some row /\
    In e (GanttTrack.assignments row) /\
    GanttEntry.trainId e = "B"%string /\
    GanttEntry.start e = JS.Fin 13 /\
    GanttEntry.duration e = JS.Fin 10.
Proof.
  assert (H : exists rows,
            chartData MoreExamples.schedule [Examples.trainA; Examples.trainB]
              Examples.config = Some rows) by (eexists; reflexivity).
  destruct H as [rows Hrows].
  destruct (chartData_draws_counted MoreExamples.schedule
              [Examples.trainA; Examples.trainB] Examples.config rows
              MoreExamples.then_B Examples.trainB (JS.Fin 10) Hrows)
    as (row & e & Hrow & _ & He & Hid & Hstart & Hdur & _).
  - simpl. auto.
  - reflexivity.
  - exists rows, row, e. repeat split; assumption.
Defined.

Lemma dashboard_charts_defined_witness :
  exists r rowsBefore rowsAfter,
    rescheduleWithDisruption [Examples.T1; Examples.T2; Examples.T3]
      Examples.config Examples.block_0 = Some r /\
    chartData (Comparison.before r)
      (prepareTrainsData [Examples.T1; Examples.T2; Examples.T3] Examples.config)
      Examples.config = Some rowsBefore /\
    chartData (Comparison.after r)
      (prepareTrainsData [Examples.T1; Examples.T2; Examples.T3] Examples.config)
      Examples.config = Some rowsAfter /\
    List.length rowsAfter = 1%nat.
Proof.
  assert (H : exists r,
            rescheduleWithDisruption [Examples.T1; Examples.T2; Examples.T3]
              Examples.config Examples.block_0 = Some r) by (eexists; reflexivity).
  destruct H as [r Hr].
  destruct (dashboard_charts_defined [Examples.T1; Examples.T2; Examples.T3]
              Examples.config Examples.block_0 r) as (rb & ra & Hb & Ha & _ & Hlen).
  - simpl. lia.
  - exact Hr.
  - exists r, rb, ra. auto.
Defined.

Lemma blocked_chart_last_row_empty_witness :
  exists r rows,
    rescheduleWithDisruption [Examples.T1; Examples.T2; Examples.T3]
      Examples.default_config Examples.block_0 = Some r /\
    chartData (Comparison.after r)
      (prepareTrainsData [Examples.T1; Examples.T2; Examples.T3]
         Examples.default_config)
      Examples.default_config = Some rows /\
    rows !! 2%nat = Some (GanttTrack.mk 2 []).
Proof.
  assert (H : exists r,
            rescheduleWithDisruption [Examples.T1; Examples.T2; Examples.T3]
              Examples.default_config Examples.block_0 = Some r)
    by (eexists; reflexivity).
  destruct H as [r Hr].
  destruct (blocked_chart_last_row_empty [Examples.T1; Examples.T2; Examples.T3]
              Examples.default_config Examples.block_0 0 r) as (rows & Hrows & Hlast).
  - simpl. lia.
  - reflexivity.
  - reflexivity.
  - exact Hr.
  - exists r, rows. split; [exact Hr |]. split; [exact Hrows | exact Hlast].
Defined.



Lemma enough_tracks_no_delay_witness :
  exists s,
    greedySchedule [Examples.trainA; Examples.trainB] Examples.default_config = Some s /\
    optimizedSchedule [Examples.trainA; Examples.trainB] Examples.default_config
      = Some s /\
    List.length (Schedule.assignments s) = 2%nat /\
    Forall (on_time [Examples.trainA; Examples.trainB]) (Schedule.assignments s).
Proof.
  apply (enough_tracks_no_delay [Examples.trainA; Examples.trainB]
           Examples.default_config).
  - unfold valid_tracks. simpl. lia.
  - exists 3. split; [reflexivity | lra].
  - unfold unique_ids. apply (bool_decide_unpack _). vm_compute. exact I.
  - constructor; [exists 0, 10, 180; repeat split; try reflexivity; lra |].
    constructor; [exists 5, 10, 180; repeat split; try reflexivity; lra |].
    constructor.
  - simpl. lia.
Defined.
